(** * vti_search: the concurrent retrieval pipeline of [lib/vt.py]

    A shallow embedding of the class [VirusTotal_Search]: its three
    [asyncio.Queue]s, the coroutines [get_sample_info], [get_sample],
    [get_behavior_report] and [get_heartbeat], the driver [search], and
    of the driver [download_samples] the part that reads the hash list
    and starts the info workers.

    Coroutines are small-step machines.  A program counter marks every
    place where the source tests a queue, takes from a queue, or awaits
    the Remote Catalog; an event loop ([Loop]) interleaves the tasks the
    way asyncio does: a task keeps control until it really suspends.

    Strings are Rocq [string]s, that is code points below 256; on those
    the class [\d] of Python's [re] is exactly [0-9]. *)

From Stdlib Require Import Ascii String.
From stdpp Require Import base option list gmap strings sets relations.

Local Open Scope string_scope.
Local Open Scope list_scope.

(** ** Strings, paths *)

Definition nl : string := String (ascii_of_nat 10) EmptyString.

(** [str.strip("\n ")]: the characters removed at both ends. *)
Definition in_strip_set (c : ascii) : bool :=
  Ascii.eqb c (ascii_of_nat 10) || Ascii.eqb c (ascii_of_nat 32).

Fixpoint lstrip (s : string) : string :=
  match s with
  | EmptyString => EmptyString
  | String c r => if in_strip_set c then lstrip r else s
  end.

Fixpoint rstrip (s : string) : string :=
  match s with
  | EmptyString => EmptyString
  | String c r =>
      match rstrip r with
      | EmptyString => if in_strip_set c then EmptyString else String c EmptyString
      | r' => String c r'
      end
  end.

Definition strip (s : string) : string := rstrip (lstrip s).

(** [os.path.join(a, b)] on POSIX, two components. *)
Definition ends_with_slash (a : string) : bool :=
  match String.length a with
  | 0 => false
  | S n => match String.get n a with
           | Some c => Ascii.eqb c "/"
           | None => false
           end
  end.

Definition path_join (a b : string) : string :=
  match b with
  | String c _ =>
      if Ascii.eqb c "/" then b
      else if (String.length a =? 0)%nat || ends_with_slash a then a +:+ b
      else a +:+ "/" +:+ b
  | EmptyString =>
      if (String.length a =? 0)%nat || ends_with_slash a then a else a +:+ "/"
  end.

(** ** The hash shapes of [download_samples] *)

(** The character class [[a-fA-F\d]]. *)
Definition is_hex (c : ascii) : bool :=
  let n := nat_of_ascii c in
  ((97 <=? n)%nat && (n <=? 102)%nat) || ((65 <=? n)%nat && (n <=? 70)%nat)
  || ((48 <=? n)%nat && (n <=? 57)%nat).

(** [re.compile(r"([a-fA-F\d]{n})").match(s)]: [match] anchors the
    pattern at the start of [s] and nowhere else. *)
Fixpoint re_match_hex (n : nat) (s : string) : bool :=
  match n with
  | 0 => true
  | S k => match s with
           | String c r => is_hex c && re_match_hex k r
           | EmptyString => false
           end
  end.

Definition md5 : string -> bool := re_match_hex 32.
Definition sha1 : string -> bool := re_match_hex 40.
Definition sha256 : string -> bool := re_match_hex 64.

Definition is_hash (data : string) : bool := md5 data || sha1 data || sha256 data.

(** ** Artifacts and queue items *)

(** The objects the Remote Catalog hands out; [type] is the string the
    source compares against ["file"], ["url"], ["domain"]. *)
Record Artifact := {
  a_type : string;
  a_id : string;
  a_url : string;
}.

Global Instance Artifact_eq_dec : EqDecision Artifact.
Proof. solve_decision. Defined.

(** What a queue holds: a hash string or a resolved object. *)
Inductive QueueItem :=
| IdStr (s : string)
| Obj (o : Artifact).

Global Instance QueueItem_eq_dec : EqDecision QueueItem.
Proof. solve_decision. Defined.

(** [sample if isinstance(sample, str) else sample.id] *)
Definition item_id (x : QueueItem) : string :=
  match x with
  | IdStr s => s
  | Obj o => a_id o
  end.

(** ** asyncio.Queue *)

(** [q_unfinished] is asyncio's [_unfinished_tasks]. *)
Record Queue := {
  q_items : list QueueItem;
  q_unfinished : nat;
}.

Definition new_queue : Queue := {| q_items := []; q_unfinished := 0 |}.

Definition q_put (q : Queue) (x : QueueItem) : Queue :=
  {| q_items := q_items q ++ [x]; q_unfinished := S (q_unfinished q) |}.

Definition q_empty (q : Queue) : bool :=
  match q_items q with
  | [] => true
  | _ :: _ => false
  end.

Definition q_qsize (q : Queue) : nat := length (q_items q).

(** [await queue.get()]: [None] when the queue is empty, in which case the
    caller suspends until somebody puts. *)
Definition q_get (q : Queue) : option (QueueItem * Queue) :=
  match q_items q with
  | [] => None
  | x :: r => Some (x, {| q_items := r; q_unfinished := q_unfinished q |})
  end.

(** [queue.task_done()]: [None] is the [ValueError] of a call without a
    matching item. *)
Definition q_task_done (q : Queue) : option Queue :=
  match q_unfinished q with
  | 0 => None
  | S n => Some {| q_items := q_items q; q_unfinished := n |}
  end.

(** [await queue.join()] returns exactly when nothing is unfinished. *)
Definition q_joined (q : Queue) : bool := (q_unfinished q =? 0)%nat.

(** [for data in f] on a text file: universal newlines, every line keeps
    its terminator, read as a line feed. *)
Fixpoint file_lines_from (cur : string) (s : string) : list string :=
  match s with
  | EmptyString =>
      match cur with
      | EmptyString => []
      | _ => [cur]
      end
  | String c r =>
      if Ascii.eqb c (ascii_of_nat 10) then (cur +:+ nl) :: file_lines_from EmptyString r
      else if Ascii.eqb c (ascii_of_nat 13) then
        match r with
        | String c2 r2 =>
            if Ascii.eqb c2 (ascii_of_nat 10)
            then (cur +:+ nl) :: file_lines_from EmptyString r2
            else (cur +:+ nl) :: file_lines_from EmptyString r
        | EmptyString => [cur +:+ nl]
        end
      else file_lines_from (cur +:+ String c EmptyString) r
  end.

Definition file_lines : string -> list string := file_lines_from EmptyString.

(** ** The disk *)

Inductive node :=
| File (content : string)
| Dir.

(** [denied] collects the paths on which [open] fails for a reason the
    tree does not show (permissions, a missing parent directory). *)
Record Disk := {
  nodes : gmap string node;
  denied : gset string;
}.

Definition isfile (d : Disk) (p : string) : bool :=
  match nodes d !! p with
  | Some (File _) => true
  | _ => false
  end.

Definition path_exists (d : Disk) (p : string) : bool :=
  match nodes d !! p with
  | Some _ => true
  | None => false
  end.

(** [open(p, "w")] and [open(p, "wb")]: creates or truncates; [None] is
    the [IOError]. *)
Definition open_write (d : Disk) (p : string) : option Disk :=
  if bool_decide (p ∈ denied d) then None
  else match nodes d !! p with
       | Some Dir => None
       | _ => Some {| nodes := <[p := File EmptyString]> (nodes d); denied := denied d |}
       end.

(** [f.write(data)] on a handle opened by [open_write]. *)
Definition append_node (data : string) (n : node) : node :=
  match n with
  | File c => File (c +:+ data)
  | Dir => Dir
  end.

Definition write (d : Disk) (p : string) (data : string) : Disk :=
  {| nodes := alter (append_node data) p (nodes d); denied := denied d |}.

(** [open(p, "r")] followed by reading everything. *)
Definition read_file (d : Disk) (p : string) : option string :=
  if bool_decide (p ∈ denied d) then None
  else match nodes d !! p with
       | Some (File c) => Some c
       | _ => None
       end.

(** ** Exceptions, the Remote Catalog, collaborators *)

Inductive exn :=
| APIError (code : string)
| IOError
| ValueError
| TypeError.

Inductive reply (A : Type) :=
| Ok (x : A)
| ApiFail (code : string)
| IoFail.
Arguments Ok {A} x.
Arguments ApiFail {A} code.
Arguments IoFail {A}.

(** What the [vt.Client] answers to a request at one moment.
    [get_json_async] gives the member ["data"] of the JSON when there is
    one; [download_file_async] gives what reached the sink and how the
    call ended. *)
Record Remote := {
  get_object_async : string -> reply Artifact;
  get_json_async : string -> reply (option string);
  download_file_async : string -> string * reply unit;
}.

(** Code outside [lib/vt.py] that the class calls: the text that
    [display_values] and [display_scanning_results] produce for an
    object, [json.dump], [json.load] and [requests.compat.urljoin]. *)
Record Collab := {
  render : Artifact -> string;
  json_dump : string -> string;
  json_load : string -> option string;
  urljoin : string -> string -> string;
}.

Record Options := {
  opt_query : string;
  opt_workers : nat;
  opt_download_samples : bool;
  opt_download_behavior : bool;
  opt_download_dir : string;
  opt_samples_dir : string;
  opt_reports_dir : string;
  opt_info_dir : string;
  opt_artifacts : string;
}.

Definition site_url : string := "https://virustotal.com/api/v3/".

Definition auth_codes : list string :=
  ["AuthenticationRequiredError"; "ForbiddenError"; "UserNotActiveError";
   "WrongCredentialsError"].

Definition quota_codes : list string :=
  ["QuotaExceededError"; "TooManyRequestsError"].

(** ** Events and the state of a [VirusTotal_Search] *)

Inductive qname := InfoQ | SampleQ | BehaviorQ.

Global Instance qname_eq_dec : EqDecision qname.
Proof. solve_decision. Defined.

Inductive coroutine :=
| CoSampleInfo
| CoSample
| CoBehaviorReport
| CoHeartbeat.

Global Instance coroutine_eq_dec : EqDecision coroutine.
Proof. solve_decision. Defined.

Inductive request :=
| GetObject (path : string)
| GetJson (url : string)
| DownloadFile (sample_id : string).

Global Instance request_eq_dec : EqDecision request.
Proof. solve_decision. Defined.

(** What the code does that the claims speak about, in program order. *)
Inductive event :=
| Log (level : option string) (msg : string)
| QPut (q : qname) (x : QueueItem)
| QEmptyTest (q : qname) (b : bool)
| QGet (q : qname) (x : QueueItem)
| QTaskDone (q : qname)
| IsFile (path : string) (b : bool)
| PathExists (path : string) (b : bool)
| Net (r : request)
| Display (a : Artifact)
| Parse (report : string) (sample : QueueItem)
| CreateTask (i : nat) (co : coroutine)
| Cancel (i : nat)
| Heartbeat (info sample behavior : nat).

Global Instance event_eq_dec : EqDecision event.
Proof. solve_decision. Defined.

Record VT := {
  info_queue : Queue;
  sample_queue : Queue;
  behavior_queue : Queue;
  disk : Disk;
  trace : list event;
}.

Definition queue (qn : qname) (st : VT) : Queue :=
  match qn with
  | InfoQ => info_queue st
  | SampleQ => sample_queue st
  | BehaviorQ => behavior_queue st
  end.

Definition set_queue (qn : qname) (q : Queue) (st : VT) : VT :=
  match qn with
  | InfoQ => {| info_queue := q; sample_queue := sample_queue st;
                behavior_queue := behavior_queue st; disk := disk st; trace := trace st |}
  | SampleQ => {| info_queue := info_queue st; sample_queue := q;
                  behavior_queue := behavior_queue st; disk := disk st; trace := trace st |}
  | BehaviorQ => {| info_queue := info_queue st; sample_queue := sample_queue st;
                    behavior_queue := q; disk := disk st; trace := trace st |}
  end.

Definition set_disk (d : Disk) (st : VT) : VT :=
  {| info_queue := info_queue st; sample_queue := sample_queue st;
     behavior_queue := behavior_queue st; disk := d; trace := trace st |}.

Definition emit (e : event) (st : VT) : VT :=
  {| info_queue := info_queue st; sample_queue := sample_queue st;
     behavior_queue := behavior_queue st; disk := disk st; trace := trace st ++ [e] |}.

Definition log (level : option string) (msg : string) : VT -> VT :=
  emit (Log level msg).

Definition new_vt (d : Disk) : VT :=
  {| info_queue := new_queue; sample_queue := new_queue; behavior_queue := new_queue;
     disk := d; trace := [] |}.

(** [await queue.put(x)]; the queues are unbounded, so it never waits. *)
Definition put (qn : qname) (x : QueueItem) (st : VT) : VT :=
  emit (QPut qn x) (set_queue qn (q_put (queue qn st) x) st).

(** [queue.empty()] *)
Definition empty (qn : qname) (st : VT) : bool * VT :=
  let b := q_empty (queue qn st) in (b, emit (QEmptyTest qn b) st).

(** [queue.task_done()]; [None] is its [ValueError]. *)
Definition task_done (qn : qname) (st : VT) : option VT :=
  match q_task_done (queue qn st) with
  | Some q => Some (emit (QTaskDone qn) (set_queue qn q st))
  | None => None
  end.

(** ** display_information *)

Definition identifier_of (sample : Artifact) : string :=
  if bool_decide (a_type sample ∈ ["file"; "domain"]) then a_id sample
  else if bool_decide (a_type sample = "url") then a_url sample
  else EmptyString.

(** The part of [display_information] that the pipeline depends on: the
    summary is written only when [filename] does not exist yet.  The
    second component is the exception that escapes, if any. *)
Definition display_information (c : Collab) (sample : Artifact) (filename : string)
    (st : VT) : VT * option exn :=
  let st :=
    if bool_decide (a_type sample ∈ ["file"; "domain"; "url"]) then st
    else log (Some "WARNING")
           ("Unknown sample type detected: " +:+ a_type sample +:+ " - " +:+ a_id sample) st in
  let st := emit (Display sample) st in
  let present := path_exists (disk st) filename in
  let st := emit (PathExists filename present) st in
  if present then
    (log (Some "DEBUG")
       ("Summary report for sample already exists on disk and is not downloaded again: "
        +:+ a_id sample) st, None)
  else
    match open_write (disk st) filename with
    | None => (st, Some IOError)
    | Some d =>
        let d := write d filename (identifier_of sample +:+ nl) in
        let d := write d filename (render c sample) in
        (log (Some "DEBUG") ("Saved summary report: " +:+ filename) (set_disk d st), None)
    end.

(** The three log lines that [search] and [get_sample_info] choose from
    by error code. *)
Definition log_api_error (code : string) (st : VT) : VT :=
  if bool_decide (code ∈ auth_codes) then
    log (Some "ERROR")
      "The API key is not valid for accessing the VirusTotal Private API, or there was a problem with the user account." st
  else if bool_decide (code ∈ quota_codes) then
    log (Some "ERROR")
      "The quota for the API key or the number of issued requests has been exceeded." st
  else
    log (Some "ERROR") ("There was an error while processing the request: " +:+ code) st.

(** ** The coroutines, one step at a time

    A log line that ends with the text of a caught exception is kept up
    to that text. *)

(** [queue.task_done()] followed by a jump; the [ValueError] of
    [task_done] is caught nowhere. *)
Definition done_then {PC : Type} (qn : qname) (next : PC) (raised : exn -> PC)
    (st : VT) : PC * VT :=
  match task_done qn st with
  | Some st' => (next, st')
  | None => (raised ValueError, st)
  end.

(** *** get_sample *)

Inductive sample_pc :=
| SWhile                                       (* [while not self.sample_queue.empty()] *)
| SGet                                         (* [await self.sample_queue.get()] *)
| SFetch (sample_id sample_path : string)      (* inside [download_file_async] *)
| SReturned
| SRaised (e : exn).

Definition get_sample (o : Options) (rc : Remote) (pc : sample_pc) (st : VT)
  : sample_pc * VT :=
  match pc with
  | SWhile =>
      let '(b, st) := empty SampleQ st in
      (if b then SReturned else SGet, st)
  | SGet =>
      match q_get (sample_queue st) with
      | None => (SGet, st)
      | Some (x, q) =>
          let st := emit (QGet SampleQ x) (set_queue SampleQ q st) in
          let sample_id := item_id x in
          let sample_path := path_join (opt_samples_dir o) sample_id in
          let hit := isfile (disk st) sample_path in
          let st := emit (IsFile sample_path hit) st in
          if hit then
            let st := log (Some "DEBUG")
                        ("Sample already exists on disk and is not downloaded again: "
                         +:+ sample_id) st in
            done_then SampleQ SWhile SRaised st
          else
            match open_write (disk st) sample_path with
            | None =>
                let st := log (Some "ERROR") "Error while downloading sample: " st in
                done_then SampleQ SWhile SRaised st
            | Some d =>
                (SFetch sample_id sample_path,
                 emit (Net (DownloadFile sample_id)) (set_disk d st))
            end
      end
  | SFetch sample_id sample_path =>
      let '(written, r) := download_file_async rc sample_id in
      let st := set_disk (write (disk st) sample_path written) st in
      match r with
      | Ok _ =>
          let st := log (Some "DEBUG") ("Successfully downloaded sample: " +:+ sample_id) st in
          done_then SampleQ SWhile SRaised st
      | ApiFail code => (SRaised (APIError code), st)
      | IoFail =>
          let st := log (Some "ERROR") "Error while downloading sample: " st in
          done_then SampleQ SWhile SRaised st
      end
  | SReturned => (SReturned, st)
  | SRaised e => (SRaised e, st)
  end.

(** *** get_behavior_report, with [execute_request] inlined at its call *)

Inductive behavior_pc :=
| BWhile
| BGet
| BFetch (sample : QueueItem) (sample_id report_file : string)
| BReturned
| BRaised (e : exn).

Definition behaviours_url (c : Collab) (sample_id : string) : string :=
  urljoin c site_url ("files/" +:+ sample_id +:+ "/behaviours").

(** [execute_request]: what it returns ([None] for Python's [None]), or
    the exception that escapes it. *)
Definition execute_request (c : Collab) (rc : Remote) (url : string) (st : VT)
  : VT * (option string + exn) :=
  match get_json_async rc url with
  | Ok (Some data) => (st, inl (Some data))
  | Ok None =>
      (log None ("Behavior report for sample did not contain valid data: " +:+ url) st,
       inl None)
  | ApiFail _ => (st, inl None)
  | IoFail => (st, inr IOError)
  end.

Definition get_behavior_report (o : Options) (c : Collab) (rc : Remote)
    (pc : behavior_pc) (st : VT) : behavior_pc * VT :=
  match pc with
  | BWhile =>
      let '(b, st) := empty BehaviorQ st in
      (if b then BReturned else BGet, st)
  | BGet =>
      match q_get (behavior_queue st) with
      | None => (BGet, st)
      | Some (sample, q) =>
          let st := emit (QGet BehaviorQ sample) (set_queue BehaviorQ q st) in
          let sample_id := item_id sample in
          let report_file := path_join (opt_reports_dir o) sample_id in
          let hit := isfile (disk st) report_file in
          let st := emit (IsFile report_file hit) st in
          if negb hit then
            (BFetch sample sample_id report_file,
             emit (Net (GetJson (behaviours_url c sample_id))) st)
          else
            let st := log (Some "DEBUG")
                        ("Behavior report for sample already exists on disk and is not downloaded again: "
                         +:+ sample_id) st in
            match read_file (disk st) report_file ≫= json_load c with
            | Some result =>
                done_then BehaviorQ BWhile BRaised (emit (Parse result sample) st)
            | None =>
                let st := log (Some "ERROR")
                            ("Error while reading behaviorial report: " +:+ report_file +:+ " - ") st in
                done_then BehaviorQ BWhile BRaised st
            end
      end
  | BFetch sample sample_id report_file =>
      match execute_request c rc (behaviours_url c sample_id) st with
      | (st, inr e) => (BRaised e, st)
      | (st, inl None) =>
          let st := log (Some "ERROR")
                      ("Sample does not have a behavior report, or the report could not be retrieved: "
                       +:+ sample_id) st in
          done_then BehaviorQ BWhile BRaised st
      | (st, inl (Some result)) =>
          match open_write (disk st) report_file with
          | Some d =>
              let st := set_disk (write d report_file (json_dump c result)) st in
              let st := log (Some "DEBUG") ("Saved behaviorial report: " +:+ report_file) st in
              done_then BehaviorQ BWhile BRaised (emit (Parse result sample) st)
          | None =>
              let st := log (Some "ERROR")
                          ("Error while saving behaviorial report: " +:+ report_file +:+ " - ") st in
              done_then BehaviorQ BWhile BRaised st
          end
      end
  | BReturned => (BReturned, st)
  | BRaised e => (BRaised e, st)
  end.

(** *** get_sample_info *)

Inductive info_pc :=
| IWhile
| IGet
| IFetch (sample_id : string)                  (* inside [get_object_async] *)
| IDrainWhile                                  (* [while not self.info_queue.empty()], line 537 *)
| IDrainGet                                    (* [await self.info_queue.get()], line 538 *)
| IReturned
| IRaised (e : exn).

(** The local list [samples] travels with the program counter. *)
Definition get_sample_info (o : Options) (c : Collab) (rc : Remote)
    (pc : info_pc) (samples : list Artifact) (st : VT)
  : info_pc * list Artifact * VT :=
  match pc with
  | IWhile =>
      let '(b, st) := empty InfoQ st in
      (if b then IReturned else IGet, samples, st)
  | IGet =>
      match q_get (info_queue st) with
      | None => (IGet, samples, st)
      | Some (x, q) =>
          let st := emit (QGet InfoQ x) (set_queue InfoQ q st) in
          match x with
          | IdStr sample_id =>
              (IFetch sample_id, samples,
               emit (Net (GetObject (path_join "/files" sample_id))) st)
          | Obj _ => (IRaised TypeError, samples, st)
          end
      end
  | IFetch sample_id =>
      match get_object_async rc (path_join "/files" sample_id) with
      | Ok result =>
          let sample_report := path_join (opt_info_dir o) sample_id in
          match display_information c result sample_report st with
          | (st, Some e) => (IRaised e, samples, st)
          | (st, None) =>
              let '(pc, st) := done_then InfoQ IWhile IRaised st in
              (pc, samples ++ [result], st)
          end
      | ApiFail code =>
          if bool_decide (code = "NotFoundError") then
            (IWhile, samples,
             log (Some "WARNING") ("Sample was not found: " +:+ sample_id +:+ nl) st)
          else (IDrainWhile, samples, log_api_error code st)
      | IoFail => (IRaised IOError, samples, st)
      end
  | IDrainWhile =>
      let '(b, st) := empty InfoQ st in
      if b then
        let '(pc, st) := done_then InfoQ IWhile IRaised st in (pc, samples, st)
      else (IDrainGet, samples, st)
  | IDrainGet =>
      match q_get (info_queue st) with
      | None => (IDrainGet, samples, st)
      | Some (x, q) =>
          let st := emit (QGet InfoQ x) (set_queue InfoQ q st) in
          let '(pc, st) := done_then InfoQ IDrainWhile IRaised st in
          (pc, samples, st)
      end
  | IReturned => (IReturned, samples, st)
  | IRaised e => (IRaised e, samples, st)
  end.

(** *** get_heartbeat *)

Inductive heartbeat_pc :=
| HWhile                                       (* about to write the status line *)
| HSleep.                                      (* inside [asyncio.sleep(1)] *)

Definition get_heartbeat (pc : heartbeat_pc) (st : VT) : heartbeat_pc * VT :=
  match pc with
  | HWhile =>
      (HSleep,
       emit (Heartbeat (q_qsize (info_queue st)) (q_qsize (sample_queue st))
               (q_qsize (behavior_queue st))) st)
  | HSleep => (HWhile, st)
  end.

(** ** Tasks and the event loop *)

Inductive task :=
| SampleInfoTask (pc : info_pc) (samples : list Artifact)
| SampleTask (pc : sample_pc)
| BehaviorTask (pc : behavior_pc)
| HeartbeatTask (pc : heartbeat_pc)
| CancelledTask.

(** A coroutine object that has not run yet. *)
Definition fresh (co : coroutine) : task :=
  match co with
  | CoSampleInfo => SampleInfoTask IWhile []
  | CoSample => SampleTask SWhile
  | CoBehaviorReport => BehaviorTask BWhile
  | CoHeartbeat => HeartbeatTask HWhile
  end.

Definition task_step (o : Options) (c : Collab) (rc : Remote) (t : task) (st : VT)
  : task * VT :=
  match t with
  | SampleInfoTask pc samples =>
      let '(pc, samples, st) := get_sample_info o c rc pc samples st in
      (SampleInfoTask pc samples, st)
  | SampleTask pc =>
      let '(pc, st) := get_sample o rc pc st in (SampleTask pc, st)
  | BehaviorTask pc =>
      let '(pc, st) := get_behavior_report o c rc pc st in (BehaviorTask pc, st)
  | HeartbeatTask pc =>
      let '(pc, st) := get_heartbeat pc st in (HeartbeatTask pc, st)
  | CancelledTask => (CancelledTask, st)
  end.

(** [task.done()] *)
Definition finished (t : task) : bool :=
  match t with
  | SampleInfoTask IReturned _ | SampleInfoTask (IRaised _) _ => true
  | SampleTask SReturned | SampleTask (SRaised _) => true
  | BehaviorTask BReturned | BehaviorTask (BRaised _) => true
  | CancelledTask => true
  | _ => false
  end.

Definition returned (t : task) : bool :=
  match t with
  | SampleInfoTask IReturned _ | SampleTask SReturned | BehaviorTask BReturned => true
  | _ => false
  end.

Definition raised (t : task) : option exn :=
  match t with
  | SampleInfoTask (IRaised e) _ | SampleTask (SRaised e) | BehaviorTask (BRaised e) => Some e
  | _ => None
  end.

(** The task is inside [queue.get()] of an empty queue: nothing wakes it
    but a [put]. *)
Definition blocked (t : task) (st : VT) : bool :=
  match t with
  | SampleInfoTask IGet _ | SampleInfoTask IDrainGet _ => q_empty (info_queue st)
  | SampleTask SGet => q_empty (sample_queue st)
  | BehaviorTask BGet => q_empty (behavior_queue st)
  | _ => false
  end.

(** The task waits for the network or for the clock. *)
Definition awaiting (t : task) : bool :=
  match t with
  | SampleInfoTask (IFetch _) _ | SampleTask (SFetch _ _) | BehaviorTask (BFetch _ _ _) => true
  | HeartbeatTask HSleep => true
  | _ => false
  end.

(** The places where a task gives control back to the loop. *)
Definition suspended (t : task) (st : VT) : bool :=
  finished t || awaiting t || blocked t st.

Definition enabled (t : task) (st : VT) : bool :=
  negb (finished t) && negb (blocked t st).

(** [running] is the task that holds control, if any. *)
Record Loop := {
  vt : VT;
  tasks : list task;
  running : option nat;
}.

Definition resume (o : Options) (c : Collab) (rc : Remote) (i : nat) (t : task)
    (L : Loop) : Loop :=
  let '(t', st') := task_step o c rc t (vt L) in
  {| vt := st'; tasks := <[i := t']> (tasks L);
     running := if suspended t' st' then None else Some i |}.

(** Cooperative scheduling: a task moves when nobody else holds control;
    the Remote Catalog may answer anything. *)
Inductive loop_step (o : Options) (c : Collab) : Loop -> Loop -> Prop :=
| loop_step_task L i t rc :
    tasks L !! i = Some t ->
    running L = None \/ running L = Some i ->
    enabled t (vt L) = true ->
    loop_step o c L (resume o c rc i t L).

(** The same tasks under a scheduler that may switch between any two
    steps; asyncio is not such a scheduler. *)
Inductive preemptive_step (o : Options) (c : Collab) : Loop -> Loop -> Prop :=
| preemptive_step_task L i t rc :
    tasks L !! i = Some t ->
    enabled t (vt L) = true ->
    preemptive_step o c L (resume o c rc i t L).

(** One task alone, against a fixed Remote Catalog, for at most [fuel]
    steps. *)
Fixpoint run_task (o : Options) (c : Collab) (rc : Remote) (fuel : nat)
    (t : task) (st : VT) : task * VT :=
  match fuel with
  | 0 => (t, st)
  | S n =>
      if enabled t st then
        let '(t', st') := task_step o c rc t st in run_task o c rc n t' st'
      else (t, st)
  end.

(** [asyncio.create_task(co)] *)
Definition create_task (co : coroutine) (L : Loop) : nat * Loop :=
  let i := length (tasks L) in
  (i, {| vt := emit (CreateTask i co) (vt L); tasks := tasks L ++ [fresh co];
         running := running L |}).

(** [task.cancel()]: no effect on a task that is done. *)
Definition cancel (i : nat) (L : Loop) : Loop :=
  {| vt := emit (Cancel i) (vt L);
     tasks := match tasks L !! i with
              | Some t => if finished t then tasks L else <[i := CancelledTask]> (tasks L)
              | None => tasks L
              end;
     running := running L |}.

(** ** search *)

(** ["{0:70}".format(s)]: padded with spaces on the right. *)
Fixpoint spaces (n : nat) : string :=
  match n with
  | 0 => EmptyString
  | S k => String (ascii_of_nat 32) (spaces k)
  end.

Definition ljust (width : nat) (s : string) : string :=
  s +:+ spaces (width - String.length s).

(** How the [async for] over the search results ends. *)
Inductive iteration_end :=
| Exhausted
| ApiRaised (code : string)
| Escaped (e : exn).

(** The body of the [async for]; [f] is the path of the artifact log. *)
Definition visit (o : Options) (c : Collab) (f : string) (obj : Artifact) (st : VT)
  : VT * option exn :=
  if bool_decide (a_type obj ∈ ["file"; "url"; "domain"]) then
    let st :=
      if bool_decide (a_type obj ∈ ["file"; "domain"]) then
        set_disk (write (disk st) f (a_id obj +:+ nl)) st
      else
        set_disk (write (disk st) f (a_id obj +:+ " => " +:+ a_url obj +:+ nl)) st in
    let st :=
      if bool_decide (a_type obj = "file") then
        let st := if opt_download_samples o then put SampleQ (Obj obj) st else st in
        if opt_download_behavior o then put BehaviorQ (Obj obj) st else st
      else st in
    display_information c obj (path_join (opt_info_dir o) (a_id obj)) st
  else
    (log (Some "WARNING")
       ("Warning: Unknown artifact type detected: " +:+ a_type obj +:+ " - "
        +:+ ljust 70 (a_id obj)) st, None).

(** [it] lists what the iterator of the Remote Catalog gives, one reply
    for each time the loop asks. *)
Fixpoint search_iterate (o : Options) (c : Collab) (f : string)
    (it : list (reply Artifact)) (st : VT) : VT * iteration_end :=
  match it with
  | [] => (st, Exhausted)
  | Ok obj :: rest =>
      match visit o c f obj st with
      | (st, Some e) => (st, Escaped e)
      | (st, None) => search_iterate o c f rest st
      end
  | ApiFail code :: _ => (log_api_error code st, ApiRaised code)
  | IoFail :: _ => (st, Escaped IOError)
  end.

(** The two [create_task] lines of one turn of [for worker in range(...)]. *)
Definition spawn_pair (o : Options) (acc : list nat * Loop) : list nat * Loop :=
  let '(ids, L) := acc in
  let '(ids, L) :=
    if opt_download_behavior o then
      let '(i, L) := create_task CoBehaviorReport L in (ids ++ [i], L)
    else (ids, L) in
  if opt_download_samples o then
    let '(i, L) := create_task CoSample L in (ids ++ [i], L)
  else (ids, L).

Fixpoint spawn_workers (o : Options) (n : nat) (acc : list nat * Loop)
  : list nat * Loop :=
  match n with
  | 0 => acc
  | S k => spawn_workers o k (spawn_pair o acc)
  end.

(** How a driver ends: [return None], or an exception that nobody
    caught. *)
Inductive result :=
| ReturnNone
| Raises (e : exn).

(** A driver either reaches [await asyncio.gather( *tasks )] with the
    local list [tasks], or has ended before. *)
Inductive phase :=
| Gathering (ids : list nat)
| Ended (r : result).

(** The first log line of [search]. *)
Definition query_line (o : Options) : event :=
  Log None ("Running intelligence query: " +:+ opt_query o).

Definition artifact_log (o : Options) : string :=
  path_join (opt_download_dir o) (opt_artifacts o).

(** [search] up to its first real suspension.  The heartbeat's turns
    during the iteration only write a status line and are left out. *)
Definition search_start (o : Options) (c : Collab) (it : list (reply Artifact))
    (st : VT) : phase * Loop :=
  let st := emit (query_line o) st in
  let '(_, L) := create_task CoHeartbeat {| vt := st; tasks := []; running := None |} in
  match open_write (disk (vt L)) (artifact_log o) with
  | None => (Ended (Raises IOError), L)
  | Some d =>
      let '(st, e) := search_iterate o c (artifact_log o) it (set_disk d (vt L)) in
      let L := {| vt := st; tasks := tasks L; running := None |} in
      match e with
      | ApiRaised _ => (Ended ReturnNone, L)
      | Escaped e => (Ended (Raises e), L)
      | Exhausted =>
          let '(ids, L) := spawn_workers o (opt_workers o) ([], L) in
          (Gathering ids, L)
      end
  end.

(** [for task in tasks: task.cancel()] *)
Definition cancel_all (ids : list nat) (L : Loop) : Loop :=
  fold_left (fun L i => cancel i L) ids L.

(** The runs of [search].  [gather] hands control back when a task of
    [tasks] has raised, or when all have returned; [join] lets the driver
    through only when nothing is unfinished, and the driver has no run
    in which a [join] waits for ever. *)
Inductive search (o : Options) (c : Collab) (it : list (reply Artifact)) (st : VT)
  : result -> Loop -> Prop :=
| search_ended r L :
    search_start o c it st = (Ended r, L) ->
    search o c it st r L
| search_gather_raises ids L1 L2 i t e :
    search_start o c it st = (Gathering ids, L1) ->
    rtc (loop_step o c) L1 L2 ->
    running L2 = None ->
    i ∈ ids -> tasks L2 !! i = Some t -> raised t = Some e ->
    search o c it st (Raises e) L2
| search_joined ids L1 L2 :
    search_start o c it st = (Gathering ids, L1) ->
    rtc (loop_step o c) L1 L2 ->
    running L2 = None ->
    (forall i, i ∈ ids -> exists t, tasks L2 !! i = Some t /\ returned t = true) ->
    q_joined (behavior_queue (vt L2)) = true ->
    q_joined (sample_queue (vt L2)) = true ->
    search o c it st ReturnNone (cancel_all ids L2).

(** ** download_samples, up to its first [gather] *)

(** One turn of [for data in f]; the state is the local list [samples]
    and the object. *)
Definition read_line (acc : list string * VT) (data : string) : list string * VT :=
  let '(samples, st) := acc in
  let data := strip data in
  if md5 data || sha1 data || sha256 data then
    if bool_decide (data ∈ samples) then (samples, st)
    else (samples ++ [data], put InfoQ (IdStr data) st)
  else (samples, st).

Definition read_hashes (lines : list string) (st : VT) : list string * VT :=
  fold_left read_line lines ([], st).

Fixpoint spawn_info (n : nat) (acc : list nat * Loop) : list nat * Loop :=
  match n with
  | 0 => acc
  | S k =>
      let '(ids, L) := acc in
      let '(i, L) := create_task CoSampleInfo L in
      spawn_info k (ids ++ [i], L)
  end.

Definition download_samples_start (o : Options) (filename : string) (st : VT)
  : phase * Loop :=
  let '(_, L) := create_task CoHeartbeat {| vt := st; tasks := []; running := None |} in
  match read_file (disk (vt L)) filename with
  | None => (Ended (Raises IOError), L)
  | Some text =>
      let '(_, st) := read_hashes (file_lines text) (vt L) in
      let L := {| vt := st; tasks := tasks L; running := None |} in
      let '(ids, L) := spawn_info (opt_workers o) ([], L) in
      (Gathering ids, L)
  end.

(** ** Vocabulary of the statements *)

(** The requests sent to the Remote Catalog, in order. *)
Definition request_of (e : event) : option request :=
  match e with
  | Net r => Some r
  | _ => None
  end.

Definition requests (tr : list event) : list request := omap request_of tr.

(** The items taken off queue [qn], in order. *)
Definition got_from (qn : qname) (e : event) : option QueueItem :=
  match e with
  | QGet q x => if bool_decide (q = qn) then Some x else None
  | _ => None
  end.

Definition gets (qn : qname) (tr : list event) : list QueueItem := omap (got_from qn) tr.

(** How often [task_done] was called on queue [qn]. *)
Definition dones (qn : qname) (tr : list event) : nat :=
  length (filter (fun e => e = QTaskDone qn) tr).

(** [open(p, "w")] succeeds on [d]. *)
Definition writable (d : Disk) (p : string) : Prop :=
  (p ∉ denied d) /\ (nodes d !! p ≠ Some Dir).

(** The task stands between the test of its queue and the [get]. *)
Definition at_get (t : task) : bool :=
  match t with
  | SampleInfoTask IGet _ | SampleInfoTask IDrainGet _ => true
  | SampleTask SGet | BehaviorTask BGet => true
  | _ => false
  end.

(** The queue a task works on. *)
Definition queue_of_task (t : task) : option qname :=
  match t with
  | SampleInfoTask _ _ => Some InfoQ
  | SampleTask _ => Some SampleQ
  | BehaviorTask _ => Some BehaviorQ
  | _ => None
  end.

(** A loop in which no task has begun a [get]: such are the loops right
    after the tasks were created. *)
Definition no_get_begun (L : Loop) : Prop :=
  forall i t, tasks L !! i = Some t -> at_get t = false.

(** A string made of [n] hexadecimal characters and nothing else. *)
Fixpoint hex_string (n : nat) (s : string) : bool :=
  match n, s with
  | 0, EmptyString => true
  | S k, String c r => is_hex c && hex_string k r
  | _, _ => false
  end.

(** The hash shapes in the words of the specification: exactly 32, 40 or
    64 hexadecimal characters. *)
Definition hash_shaped (s : string) : bool :=
  hex_string 32 s || hex_string 40 s || hex_string 64 s.

(** The acceptance rule in the words of the specification: the line
    without its trailing newline and spaces has a hash shape. *)
Definition spec_accepts (line : string) : bool := hash_shaped (rstrip line).

(** The distinct elements of a list in the order of their first
    occurrence. *)
Fixpoint first_occurrences (l : list string) : list string :=
  match l with
  | [] => []
  | x :: r => x :: filter (fun y => y <> x) (first_occurrences r)
  end.

(** The lines of a source on which the code's test succeeds, stripped. *)
Definition accepted (lines : list string) : list string :=
  filter (fun data => is_hash data = true) (strip <$> lines).

(** [each_after P prev l]: every element of [l] stands in relation [P]
    to the element right before it ([prev] for the first). *)
Fixpoint each_after {A : Type} (P : option A -> A -> Prop) (prev : option A)
    (l : list A) : Prop :=
  match l with
  | [] => True
  | e :: r => P prev e /\ each_after P (Some e) r
  end.

(** A download or a behaviour request comes right after a test of the
    target file that answered [False]; a lookup comes anywhere. *)
Definition request_checked (o : Options) (c : Collab) (prev : option event)
    (e : event) : Prop :=
  match e with
  | Net (DownloadFile sample_id) =>
      prev = Some (IsFile (path_join (opt_samples_dir o) sample_id) false)
  | Net (GetJson url) =>
      exists sample_id, url = behaviours_url c sample_id /\
        prev = Some (IsFile (path_join (opt_reports_dir o) sample_id) false)
  | _ => True
  end.

(** An item is taken right after a test of the same queue that found it
    not empty. *)
Definition taken_after_test (prev : option event) (e : event) : Prop :=
  match e with
  | QGet qn _ => prev = Some (QEmptyTest qn false)
  | _ => True
  end.

(** What a worker or the heartbeat does: it creates and cancels no task
    and puts nothing into a queue. *)
Definition own_event (e : event) : Prop :=
  match e with
  | CreateTask _ _ | Cancel _ | QPut _ _ => False
  | _ => True
  end.

(** The last element of [l], or [prev] when there is none. *)
Definition last_or {A : Type} (prev : option A) (l : list A) : option A :=
  match last l with
  | Some e => Some e
  | None => prev
  end.

(** An event other than a [cancel]. *)
Definition not_cancel (e : event) : Prop :=
  match e with
  | Cancel _ => False
  | _ => True
  end.

(** The loop in which only the heartbeat lives. *)
Definition heartbeat_only (st : VT) : Loop :=
  {| vt := st; tasks := [HeartbeatTask HWhile]; running := None |}.

(** The coroutine a task runs; a cancelled task runs none. *)
Definition coroutine_of (t : task) : option coroutine :=
  match t with
  | SampleInfoTask _ _ => Some CoSampleInfo
  | SampleTask _ => Some CoSample
  | BehaviorTask _ => Some CoBehaviorReport
  | HeartbeatTask _ => Some CoHeartbeat
  | CancelledTask => None
  end.

(** What one step of a task gives: the events [evs] it adds, and what
    they, the task after the step and the queues satisfy. *)
Definition step_spec (o : Options) (c : Collab) (t : task) (st : VT) (t' : task)
    (st' : VT) : Prop :=
  exists evs, trace st' = trace st ++ evs
    /\ Forall own_event evs
    /\ (forall prev, each_after (request_checked o c) prev evs)
    /\ (forall prev,
          (at_get t = true ->
             exists qn, queue_of_task t = Some qn /\ prev = Some (QEmptyTest qn false)) ->
          each_after taken_after_test prev evs)
    /\ (at_get t' = true ->
          at_get t = false /\ exists qn, queue_of_task t' = Some qn /\
            last evs = Some (QEmptyTest qn false) /\ q_empty (queue qn st') = false)
    /\ (forall qn, gets qn evs ++ q_items (queue qn st') = q_items (queue qn st)).

(** The number of items a task has taken and not yet marked done. *)
Definition holding (t : task) : nat :=
  match t with
  | SampleInfoTask (IFetch _) _ | SampleInfoTask IDrainWhile _
  | SampleInfoTask IDrainGet _ => 1
  | SampleTask (SFetch _ _) => 1
  | BehaviorTask (BFetch _ _ _) => 1
  | _ => 0
  end.

(** The info worker is about to hear that its sample was not found. *)
Definition skips_item (rc : Remote) (t : task) : Prop :=
  match t with
  | SampleInfoTask (IFetch sample_id) _ =>
      get_object_async rc (path_join "/files" sample_id) = ApiFail "NotFoundError"
  | _ => False
  end.

(** What every run of the loop keeps, whatever the schedule. *)
Definition run_inv (o : Options) (c : Collab) (L1 L : Loop) : Prop :=
  (coroutine_of <$> tasks L) = (coroutine_of <$> tasks L1) /\
  exists E, trace (vt L) = trace (vt L1) ++ E
    /\ Forall own_event E
    /\ (forall prev, each_after (request_checked o c) prev E).

(** What a run keeps when it starts with no [get] begun. *)
Definition claim_inv (L1 L : Loop) : Prop :=
  exists E, trace (vt L) = trace (vt L1) ++ E
    /\ (forall prev, each_after taken_after_test prev E)
    /\ (forall qn, gets qn E ++ q_items (queue qn (vt L)) = q_items (queue qn (vt L1)))
    /\ (forall i t, tasks L !! i = Some t -> at_get t = true ->
          running L = Some i /\ exists qn, queue_of_task t = Some qn /\
            last E = Some (QEmptyTest qn false) /\ q_empty (queue qn (vt L)) = false).

(** ** Concrete surroundings for the examples *)

Definition no_disk : Disk := {| nodes := ∅; denied := ∅ |}.

Definition demo_options : Options :=
  {| opt_query := "tag:demo"; opt_workers := 2;
     opt_download_samples := true; opt_download_behavior := false;
     opt_download_dir := "out"; opt_samples_dir := "out/samples";
     opt_reports_dir := "out/reports"; opt_info_dir := "out/info";
     opt_artifacts := "artifacts.txt" |}.

Definition demo_collab : Collab :=
  {| render := fun _ => "summary"; json_dump := fun s => s;
     json_load := fun s => Some s; urljoin := fun a b => a +:+ b |}.

Definition md5_of_nothing : string := "d41d8cd98f00b204e9800998ecf8427e".
Definition sha1_of_nothing : string := "da39a3ee5e6b4b0d3255bfef95601890afd80709".

(** A Remote Catalog that answers every request with the API error
    [code]; a download writes [written] before it fails. *)
Definition failing_remote (code : string) (written : string) : Remote :=
  {| get_object_async := fun _ => ApiFail code;
     get_json_async := fun _ => ApiFail code;
     download_file_async := fun _ => (written, ApiFail code) |}.

(** A Remote Catalog that knows every file. *)
Definition serving_remote (content : string) : Remote :=
  {| get_object_async := fun path =>
       Ok {| a_type := "file"; a_id := md5_of_nothing; a_url := EmptyString |};
     get_json_async := fun _ => Ok (Some "{}");
     download_file_async := fun _ => (content, Ok tt) |}.

(** A disk on which the summary of the empty file cannot be written. *)
Definition locked_info_disk : Disk :=
  {| nodes := ∅; denied := {[ path_join "out/info" md5_of_nothing ]} |}.

(** A disk on which the sample of the empty file is already stored. *)
Definition cached_sample_disk : Disk :=
  {| nodes := {[ path_join "out/samples" md5_of_nothing := File "MZ" ]}; denied := ∅ |}.

(** Two sample workers, not yet started, and one item in their queue. *)
Definition two_workers : Loop :=
  {| vt := put SampleQ (IdStr md5_of_nothing) (new_vt no_disk);
     tasks := [SampleTask SWhile; SampleTask SWhile];
     running := None |}.

(** ** Tactics *)

Ltac vt_simpl :=
  cbn [trace emit log set_queue set_disk put queue disk info_queue sample_queue
       behavior_queue fst snd q_items q_unfinished] in *.

Ltac unfold_steps :=
  unfold get_sample, get_behavior_report, get_sample_info, get_heartbeat,
    execute_request, display_information, log_api_error, done_then, task_done,
    empty, q_get, q_task_done, q_empty in *.

Ltac trace_norm := rewrite <- ?app_assoc; cbn [app].

Ltac task_cbn := cbn [enabled finished blocked negb andb task_step].

Create Rewrite HintDb requests.
Create Rewrite HintDb dones.

Ltac req_simpl := autorewrite with requests; cbn [app]; rewrite ?app_nil_r.

(** Closes [step_spec] once the step has been computed. *)
Ltac solve_spec :=
  repeat match goal with
         | H : negb _ = true |- _ => apply negb_true_iff in H; rewrite ?H
         | H : negb _ = false |- _ => apply negb_false_iff in H; rewrite ?H
         end;
  eexists; split; [trace_norm; first [reflexivity | symmetry; apply app_nil_r]|];
  split_and!;
  [ repeat constructor
  | intros prev; cbn; repeat split; eauto
  | intros prev Hprev; cbn; repeat split; eauto;
    try (destruct Hprev as (qn & Hq & ->); [done|]; cbn in Hq; by simplify_eq)
  | cbn; first [done | intros _; split; [done|]; eexists; split; [reflexivity|];
                      split; [reflexivity|]; vt_simpl; cbn;
                      repeat match goal with H : q_items _ = _ :: _ |- _ => rewrite H end;
                      done]
  | intros [] ; cbn; vt_simpl; cbn; try done ].

(** * Properties *)

(** ** The hash list of the Batch Loader

    [first_occurrences] keeps what it should; the loop of
    [download_samples] computes it on the accepted lines. *)

Lemma first_occurrences_elem (l : list string) (x : string) :
  x ∈ first_occurrences l ↔ x ∈ l.
Proof.
  induction l as [|y r IH]; simpl; [done|].
  rewrite !elem_of_cons, list_elem_of_filter, IH.
  destruct (decide (x = y)); tauto.
Qed.

Lemma first_occurrences_NoDup (l : list string) : NoDup (first_occurrences l).
Proof.
  induction l as [|y r IH]; simpl; [constructor|].
  constructor.
  - rewrite list_elem_of_filter. tauto.
  - by apply NoDup_filter.
Qed.

Lemma first_occurrences_sublist (l : list string) : first_occurrences l `sublist_of` l.
Proof.
  induction l as [|y r IH]; simpl; [done|].
  apply sublist_skip. etrans; [apply sublist_filter|done].
Qed.

Lemma first_occurrences_length (l : list string) :
  length (first_occurrences l) = size (list_to_set l : gset string).
Proof.
  rewrite <- (size_list_to_set (C := gset string)) by apply first_occurrences_NoDup.
  f_equal. apply set_eq. intros x.
  by rewrite !elem_of_list_to_set, first_occurrences_elem.
Qed.

Lemma read_line_put (samples : list string) (st : VT) (line : string) :
  read_line (samples, st) line =
    if is_hash (strip line) then
      if bool_decide (strip line ∈ samples) then (samples, st)
      else (samples ++ [strip line], put InfoQ (IdStr (strip line)) st)
    else (samples, st).
Proof. reflexivity. Qed.

Lemma info_items_put (x : QueueItem) (st : VT) :
  q_items (info_queue (put InfoQ x st)) = q_items (info_queue st) ++ [x].
Proof. reflexivity. Qed.

Lemma read_fold (lines : list string) (samples : list string) (st : VT) :
  let new := filter (fun x => x ∉ samples) (first_occurrences (accepted lines)) in
  let '(samples', st') := fold_left read_line lines (samples, st) in
  samples' = samples ++ new /\
  q_items (info_queue st') = q_items (info_queue st) ++ (IdStr <$> new).
Proof.
  revert samples st. induction lines as [|line lines IH]; intros samples st;
    cbn [fold_left].
  - cbn. by rewrite !app_nil_r.
  - rewrite read_line_put. unfold accepted. rewrite fmap_cons, filter_cons.
    fold (accepted lines).
    destruct (is_hash (strip line)) eqn:Hh.
    + rewrite decide_True by done. simpl. case_bool_decide as Hin.
      * specialize (IH samples st). destruct (fold_left _ _ _) as [s' st'].
        rewrite filter_cons, decide_False by tauto.
        rewrite list_filter_filter_l by (intros x ? ->; done). exact IH.
      * specialize (IH (samples ++ [strip line]) (put InfoQ (IdStr (strip line)) st)).
        destruct (fold_left _ _ _) as [s' st'].
        rewrite filter_cons, decide_True by done.
        rewrite list_filter_filter.
        assert (Hf : filter (fun x => x ∉ samples ++ [strip line]) (first_occurrences (accepted lines))
                   = filter (fun a => (a ∉ samples) ∧ (a ≠ strip line)) (first_occurrences (accepted lines))).
        { apply list_filter_iff. intros x. rewrite elem_of_app, list_elem_of_singleton. tauto. }
        rewrite <- Hf. destruct IH as [-> ->]. rewrite info_items_put.
        rewrite fmap_cons, <- !app_assoc. done.
    + rewrite decide_False by done. apply IH.
Qed.

Lemma hex_string_match (n : nat) (s : string) :
  hex_string n s = true -> re_match_hex n s = true.
Proof.
  revert s. induction n as [|n IH]; intros [|ch r]; simpl; try done.
  intros [-> Hr]%andb_true_iff. by rewrite IH.
Qed.

Lemma re_match_hex_le (n m : nat) (s : string) :
  n <= m -> re_match_hex m s = true -> re_match_hex n s = true.
Proof.
  revert m s. induction n as [|n IH]; intros [|m] [|ch r] Hle; simpl; try done; try lia.
  intros [-> Hr]%andb_true_iff. simpl. apply (IH m); [lia|done].
Qed.

Lemma orb_absorb (a b c : bool) : (b = true -> a = true) -> (c = true -> a = true) -> a || b || c = a.
Proof. destruct a, b, c; simpl; intros H1 H2; try done; try (by rewrite H1); by rewrite H2. Qed.

Lemma is_hash_md5 (s : string) : is_hash s = re_match_hex 32 s.
Proof.
  unfold is_hash, md5, sha1, sha256.
  apply orb_absorb.
  - apply re_match_hex_le. lia.
  - apply re_match_hex_le. lia.
Qed.

Lemma hash_shaped_is_hash (s : string) : hash_shaped s = true -> is_hash s = true.
Proof.
  unfold hash_shaped, is_hash, md5, sha1, sha256.
  intros H. apply orb_true_iff in H as [H|H]; [apply orb_true_iff in H as [H|H]|];
    apply hex_string_match in H.
  - apply orb_true_iff; left. apply orb_true_iff; left. exact H.
  - apply orb_true_iff; left. apply orb_true_iff; right. exact H.
  - apply orb_true_iff; right. exact H.
Qed.

Lemma filter_not_in_nil (l : list string) : filter (fun x => x ∉ []) l = l.
Proof.
  induction l as [|y r IH]; [done|].
  rewrite filter_cons. rewrite decide_True by (cbn; apply not_elem_of_nil).
  by rewrite IH.
Qed.

Lemma read_hashes_spec (lines : list string) (st : VT) :
  let '(samples, st') := read_hashes lines st in
  samples = first_occurrences (accepted lines)
  /\ q_items (info_queue st') = q_items (info_queue st) ++ (IdStr <$> samples).
Proof.
  unfold read_hashes. pose proof (read_fold lines [] st) as H.
  destruct (fold_left read_line lines ([], st)) as [samples st'].
  cbv zeta in H. rewrite app_nil_l in H. destruct H as [Hs Hq].
  rewrite filter_not_in_nil in Hs, Hq. by subst samples.
Qed.

(** C8.  The Batch Loader puts into the info queue the distinct accepted
    identifiers of the source, each once, in the order of their first
    occurrence; their number is the number of distinct accepted
    identifiers. *)
Theorem batch_loader_dedup (lines : list string) (st : VT) :
  let '(samples, st') := read_hashes lines st in
  q_items (info_queue st') = q_items (info_queue st) ++ (IdStr <$> samples)
  /\ samples = first_occurrences (accepted lines)
  /\ NoDup samples
  /\ samples `sublist_of` accepted lines
  /\ length samples = size (list_to_set (accepted lines) : gset string).
Proof.
  pose proof (read_hashes_spec lines st) as H.
  destruct (read_hashes lines st) as [samples st'].
  destruct H as [-> Hq].
  split_and!; [done|done|apply first_occurrences_NoDup|
               apply first_occurrences_sublist|apply first_occurrences_length].
Qed.

Lemma spawn_info_spec n : forall ids L,
  info_queue (vt (spawn_info n (ids, L)).2) = info_queue (vt L)
  /\ length (spawn_info n (ids, L)).1 = length ids + n.
Proof.
  induction n as [|n IH]; intros ids L; cbn [spawn_info].
  - cbn. split; [done|lia].
  - unfold create_task. destruct (IH (ids ++ [length (tasks L)])
      {| vt := emit (CreateTask (length (tasks L)) CoSampleInfo) (vt L);
         tasks := tasks L ++ [fresh CoSampleInfo]; running := running L |}) as [-> ->].
    rewrite length_app. cbn. split; [done|lia].
Qed.

(** The same at the level of the driver: [download_samples], given a
    readable source, reaches its first [gather] with one info worker for
    each of [workers] and with the first occurrences of the accepted
    identifiers added to the info queue. *)
Corollary download_samples_fills_info_queue (o : Options) (filename text : string)
    (st : VT) :
  read_file (disk st) filename = Some text ->
  exists ids L,
    download_samples_start o filename st = (Gathering ids, L)
    /\ length ids = opt_workers o
    /\ q_items (info_queue (vt L))
       = q_items (info_queue st)
         ++ (IdStr <$> first_occurrences (accepted (file_lines text))).
Proof.
  intros Hread. unfold download_samples_start, create_task.
  cbn [vt tasks running emit disk length app fresh]. rewrite Hread.
  pose proof (read_hashes_spec (file_lines text) (emit (CreateTask 0 CoHeartbeat) st))
    as Hd.
  destruct (read_hashes _ _) as [samples st'].
  destruct Hd as (-> & Hq).
  match goal with
  | |- context [spawn_info ?n (?i, ?l)] =>
      destruct (spawn_info_spec n i l) as [Hi Hl]; destruct (spawn_info n (i, l)) as [ids L]
  end.
  cbn [fst snd vt] in *. exists ids, L. split_and!; [done|done|].
  by rewrite Hi, Hq.
Qed.

(** C4 as amended.  A line is stripped of newlines and spaces at both
    ends.  When what is left has one of the three hash shapes, it is
    accepted: put into the info queue unless it was seen before.  When
    what is left does not begin with 32 hexadecimal characters, the line
    is ignored: nothing is put and nothing is remembered. *)
Theorem batch_loader_filter (samples : list string) (st : VT) (line : string) :
  (hash_shaped (strip line) = true -> strip line ∉ samples ->
     read_line (samples, st) line
       = (samples ++ [strip line], put InfoQ (IdStr (strip line)) st))
  /\ (hash_shaped (strip line) = true -> strip line ∈ samples ->
     read_line (samples, st) line = (samples, st))
  /\ (re_match_hex 32 (strip line) = false ->
     read_line (samples, st) line = (samples, st)).
Proof.
  rewrite read_line_put. split_and!.
  - intros ->%hash_shaped_is_hash Hn. by rewrite bool_decide_eq_false_2.
  - intros ->%hash_shaped_is_hash Hn. by rewrite bool_decide_eq_true_2.
  - intros H. by rewrite is_hash_md5, H.
Qed.

Lemma batch_loader_filter_witness :
  let line := "d41d8cd98f00b204e9800998ecf8427e" +:+ nl in
  read_line ([], new_vt no_disk) line
  = (["d41d8cd98f00b204e9800998ecf8427e"],
     put InfoQ (IdStr "d41d8cd98f00b204e9800998ecf8427e") (new_vt no_disk))
  /\ read_line ([], new_vt no_disk) "not-a-hash" = ([], new_vt no_disk).
Proof.
  split.
  - apply (proj1 (batch_loader_filter [] (new_vt no_disk)
                    ("d41d8cd98f00b204e9800998ecf8427e" +:+ nl))).
    + vm_compute; reflexivity.
    + apply not_elem_of_nil.
  - apply (proj2 (proj2 (batch_loader_filter [] (new_vt no_disk) "not-a-hash"))).
    vm_compute; reflexivity.
Defined.

(** C4, the claim as stated fails: a hash with a blank in front of it is
    not a hash shape once only its end is stripped, and the Batch Loader
    puts it into the info queue. *)
Lemma leading_blank_accepted :
  let line := " d41d8cd98f00b204e9800998ecf8427e" +:+ nl in
  spec_accepts line = false
  /\ read_line ([], new_vt no_disk) line
     = (["d41d8cd98f00b204e9800998ecf8427e"],
        put InfoQ (IdStr "d41d8cd98f00b204e9800998ecf8427e") (new_vt no_disk)).
Proof. split; vm_compute; reflexivity. Qed.

(** The pattern is anchored at the start only: a line that goes on after
    32 hexadecimal characters is accepted as well. *)
Lemma overlong_line_accepted :
  let line := "d41d8cd98f00b204e9800998ecf8427e0" +:+ nl in
  spec_accepts line = false
  /\ fst (read_line ([], new_vt no_disk) line) = ["d41d8cd98f00b204e9800998ecf8427e0"].
Proof. split; vm_compute; reflexivity. Qed.

(** ** One step of a task *)

(** [each_after] over a trace that grows at its end. *)
Lemma each_after_app {A} (P : option A -> A -> Prop) prev (l1 l2 : list A) :
  each_after P prev (l1 ++ l2) <-> each_after P prev l1 /\ each_after P (last_or prev l1) l2.
Proof.
  revert prev. induction l1 as [|e r IH]; intros prev; cbn [app each_after].
  - unfold last_or. simpl. tauto.
  - rewrite IH. unfold last_or. rewrite last_cons. destruct (last r); tauto.
Qed.

Lemma gets_app qn (l1 l2 : list event) : gets qn (l1 ++ l2) = gets qn l1 ++ gets qn l2.
Proof. apply omap_app. Qed.

Lemma requests_app (l1 l2 : list event) : requests (l1 ++ l2) = requests l1 ++ requests l2.
Proof. apply omap_app. Qed.

(** Every step of every task meets [step_spec]; the proof walks through
    the branches of the four coroutines. *)
Lemma task_step_spec o c rc t st t' st' :
  enabled t st = true ->
  task_step o c rc t st = (t', st') ->
  step_spec o c t st t' st'.
Proof.
  intros He H. unfold step_spec. unfold enabled, blocked, finished in He.
  destruct t as [pc samples|pc|pc|pc|]; cbn [task_step] in H; try done.
  all: destruct pc; unfold_steps; repeat case_match; simplify_eq; vt_simpl.
  all: solve_spec.
Qed.

Lemma dones_nil qn : dones qn [] = 0.
Proof. done. Qed.

Lemma dones_cons qn e l :
  dones qn (e :: l) = (if decide (e = QTaskDone qn) then 1 else 0) + dones qn l.
Proof. unfold dones. rewrite filter_cons. by case_decide. Qed.

(** A step that neither raises nor hears [NotFoundError] marks done what
    it takes: the items taken plus those held before are the calls of
    [task_done] plus those held after. *)
Lemma task_done_accounting o c rc t st t' st' qn :
  task_step o c rc t st = (t', st') ->
  enabled t st = true ->
  raised t' = None ->
  ~ skips_item rc t ->
  queue_of_task t = Some qn ->
  exists evs, trace st' = trace st ++ evs
    /\ length (gets qn evs) + holding t = dones qn evs + holding t'.
Proof.
  intros H He Hr Hs Hq. unfold enabled, blocked, finished in He.
  destruct t as [pc samples|pc|pc|pc|]; cbn [task_step] in H; try done;
    cbn in Hq; simplify_eq.
  all: destruct pc; cbn [skips_item] in Hs; unfold_steps; repeat case_match;
    simplify_eq; vt_simpl; cbn [holding].
  all: try (exfalso; apply Hs;
            repeat match goal with
                   | H : bool_decide _ = true |- _ => apply bool_decide_eq_true_1 in H
                   end; congruence).
  all: eexists; (split; [trace_norm; first [reflexivity | symmetry; apply app_nil_r]|]).
  all: rewrite ?dones_cons, ?dones_nil; cbn [gets omap got_from length].
  all: repeat (first [rewrite decide_True by done | rewrite decide_False by discriminate]).
  all: repeat (first [rewrite bool_decide_eq_true_2 by done
                     | rewrite bool_decide_eq_false_2 by discriminate]).
  all: cbn; done.
Qed.

(** ** Runs of the event loop

    [run_inv] and [claim_inv] hold at the start and are kept by every
    step, so they hold after any number of steps. *)

Lemma task_step_coroutine o c rc t st t' st' :
  task_step o c rc t st = (t', st') -> coroutine_of t' = coroutine_of t.
Proof.
  destruct t; cbn [task_step]; intros H; repeat case_match; by simplify_eq.
Qed.

Lemma resume_vt_tasks o c rc i t L :
  exists t' st', task_step o c rc t (vt L) = (t', st') /\
    vt (resume o c rc i t L) = st' /\
    tasks (resume o c rc i t L) = <[i := t']> (tasks L) /\
    running (resume o c rc i t L) = if suspended t' st' then None else Some i.
Proof.
  unfold resume. destruct (task_step o c rc t (vt L)) as [t' st'].
  exists t', st'. done.
Qed.

Lemma run_inv_refl o c L : run_inv o c L L.
Proof.
  split; [done|]. exists []. rewrite app_nil_r. split_and!; [done|constructor|done].
Qed.

Lemma run_inv_step o c L1 L L' :
  run_inv o c L1 L -> loop_step o c L L' -> run_inv o c L1 L'.
Proof.
  intros [Hco (E & HE & Hown & Hreq)] Hstep.
  destruct Hstep as [L i t rc Hi Hrun Hen].
  destruct (resume_vt_tasks o c rc i t L) as (t' & st' & Hts & Hvt & Htasks & _).
  destruct (task_step_spec _ _ _ _ _ _ _ Hen Hts) as (evs & Htr & Hown' & Hreq' & _).
  unfold run_inv. rewrite Hvt, Htasks.
  split.
  - rewrite <- Hco. rewrite list_fmap_insert.
    apply list_insert_id. rewrite list_lookup_fmap, Hi. simpl.
    f_equal. symmetry. eapply task_step_coroutine, Hts.
  - exists (E ++ evs). rewrite Htr, HE, app_assoc. split_and!; [done| |].
    + by apply Forall_app.
    + intros prev. apply each_after_app. split; [apply Hreq|apply Hreq'].
Qed.

Lemma run_inv_rtc o c L1 L2 : rtc (loop_step o c) L1 L2 -> run_inv o c L1 L2.
Proof.
  intros H. pattern L2. eapply rtc_ind_r; [apply run_inv_refl| |exact H].
  intros L L' _ Hstep IH. eapply run_inv_step; eauto.
Qed.

Lemma claim_inv_refl L : no_get_begun L -> claim_inv L L.
Proof.
  intros Hno. exists []. rewrite app_nil_r. split_and!; [done|done|done|].
  intros i t Hi Hg. rewrite (Hno i t Hi) in Hg. done.
Qed.

Lemma last_app_nonempty {A} (l1 l2 : list A) (x : A) :
  last l2 = Some x -> last (l1 ++ l2) = Some x.
Proof.
  intros H. rewrite last_app, H. done.
Qed.

Lemma claim_inv_step o c L1 L L' :
  claim_inv L1 L -> loop_step o c L L' -> claim_inv L1 L'.
Proof.
  intros (E & HE & Htk & Hgets & Hat) Hstep.
  destruct Hstep as [L i t rc Hi Hrun Hen].
  destruct (resume_vt_tasks o c rc i t L) as (t' & st' & Hts & Hvt & Htasks & Hrunning).
  destruct (task_step_spec _ _ _ _ _ _ _ Hen Hts)
    as (evs & Htr & _ & _ & Htk' & Hat' & Hgets').
  unfold claim_inv.
  exists (E ++ evs). rewrite Hvt, Htasks, Hrunning, Htr, HE, app_assoc.
  split_and!; [done| | |].
  - intros prev. apply each_after_app. split; [apply Htk|].
    apply Htk'. intros Hg. destruct (Hat i t Hi Hg) as (_ & qn & Hq & Hl & _).
    exists qn. split; [done|]. unfold last_or. by rewrite Hl.
  - intros qn. rewrite gets_app, <- app_assoc, Hgets'. apply Hgets.
  - intros j tj Hj Hg.
    destruct (decide (i = j)) as [->|Hne].
    + rewrite list_lookup_insert_eq in Hj by (eapply lookup_lt_Some; eauto).
      assert (tj = t') as -> by congruence.
      destruct (Hat' Hg) as (Hng & qn & Hq & Hl & Hne).
      assert (Hsus : suspended t' st' = false).
      { unfold suspended, blocked.
        destruct t' as [[]|[]|[]|[]|]; cbn in Hg, Hq |- *; try done;
          injection Hq as <-; cbn in Hne; by rewrite Hne. }
      rewrite Hsus. split; [done|]. exists qn. split_and!; [done| |done].
      by apply last_app_nonempty.
    + rewrite list_lookup_insert_ne in Hj by done.
      destruct (Hat j tj Hj Hg) as (Hr & _). rewrite Hr in Hrun.
      destruct Hrun as [?|?]; simplify_eq.
Qed.

Lemma claim_inv_rtc o c L1 L2 :
  no_get_begun L1 -> rtc (loop_step o c) L1 L2 -> claim_inv L1 L2.
Proof.
  intros Hno H. pattern L2. eapply rtc_ind_r; [by apply claim_inv_refl| |exact H].
  intros L L' _ Hstep IH. eapply claim_inv_step; eauto.
Qed.

(** C9 as amended.  A worker tests its queue and takes from it in two
    operations, but no other task runs between a test that found the
    queue not empty and the [get] that follows: in every run of the loop
    that starts with no [get] begun, no task waits in [get], every item is
    taken right after such a test, and the items taken from a queue,
    followed by those still in it, are the items the queue held: none is
    taken twice and none is lost. *)
Theorem get_never_waits (o : Options) (c : Collab) (L1 L2 : Loop) :
  no_get_begun L1 ->
  rtc (loop_step o c) L1 L2 ->
  (forall i t, tasks L2 !! i = Some t -> blocked t (vt L2) = false)
  /\ exists E, trace (vt L2) = trace (vt L1) ++ E
       /\ (forall prev, each_after taken_after_test prev E)
       /\ (forall qn, gets qn E ++ q_items (queue qn (vt L2)) = q_items (queue qn (vt L1))).
Proof.
  intros Hno Hrtc.
  destruct (claim_inv_rtc o c L1 L2 Hno Hrtc) as (E & HE & Htk & Hgets & Hat).
  split.
  - intros i t Hi. destruct (at_get t) eqn:Hg.
    + destruct (Hat i t Hi Hg) as (_ & qn & Hq & _ & Hne).
      destruct t as [[]|[]|[]|[]|]; cbn in Hg, Hq |- *; try done; simplify_eq; done.
    + destruct t as [[]|[]|[]|[]|]; cbn in Hg |- *; done.
  - exists E. done.
Qed.

(** ** A task alone: get_sample

    The steps of [get_sample] one by one, then whole runs on a queue of
    one item: the file is there, the download succeeds, the download
    ends with an API error. *)

Lemma run_task_S o c rc n t st :
  run_task o c rc (S n) t st =
    if enabled t st then
      let '(t', st') := task_step o c rc t st in run_task o c rc n t' st'
    else (t, st).
Proof. reflexivity. Qed.

Lemma run_task_finished o c rc n t st :
  finished t = true -> run_task o c rc n t st = (t, st).
Proof. intros H. destruct n; [done|]. rewrite run_task_S. unfold enabled. by rewrite H. Qed.

Lemma sample_test o rc st :
  get_sample o rc SWhile st =
    (if q_empty (sample_queue st) then SReturned else SGet,
     emit (QEmptyTest SampleQ (q_empty (sample_queue st))) st).
Proof. reflexivity. Qed.

Lemma sample_get_hit o rc st x r n :
  q_items (sample_queue st) = x :: r ->
  q_unfinished (sample_queue st) = S n ->
  isfile (disk st) (path_join (opt_samples_dir o) (item_id x)) = true ->
  exists st', get_sample o rc SGet st = (SWhile, st')
    /\ disk st' = disk st
    /\ sample_queue st' = {| q_items := r; q_unfinished := n |}
    /\ requests (trace st') = requests (trace st).
Proof.
  intros Hi Hu Hf. unfold get_sample, q_get. rewrite Hi. vt_simpl. rewrite Hf.
  unfold done_then, task_done, q_task_done. vt_simpl. rewrite Hu.
  eexists. split; [reflexivity|]. vt_simpl. split_and!; try done.
  unfold requests. rewrite !omap_app. cbn. by rewrite !app_nil_r.
Qed.

Lemma requests_snoc tr e : requests (tr ++ [e]) = requests tr ++ match e with Net r => [r] | _ => [] end.
Proof. unfold requests. rewrite omap_app. by destruct e. Qed.

#[local] Hint Rewrite requests_snoc : requests.

Lemma run_sample_hit o c rc st x n fuel :
  q_items (sample_queue st) = [x] ->
  q_unfinished (sample_queue st) = S n ->
  isfile (disk st) (path_join (opt_samples_dir o) (item_id x)) = true ->
  3 <= fuel ->
  exists st', run_task o c rc fuel (SampleTask SWhile) st = (SampleTask SReturned, st')
    /\ disk st' = disk st
    /\ requests (trace st') = requests (trace st)
    /\ sample_queue st' = {| q_items := []; q_unfinished := n |}.
Proof.
  intros Hi Hu Hf Hfuel.
  destruct fuel as [|[|[|fuel]]]; try lia.
  rewrite run_task_S; task_cbn.
  rewrite sample_test. unfold q_empty at 1 2. rewrite Hi.
  rewrite run_task_S; task_cbn.
  unfold q_empty at 1. vt_simpl. rewrite Hi. cbn [negb].
  destruct (sample_get_hit o rc (emit (QEmptyTest SampleQ false) st) x [] n)
    as (st1 & -> & Hd & Hq & Hr); [done..|].
  rewrite run_task_S; task_cbn.
  rewrite sample_test. rewrite Hq. cbn [q_empty q_items].
  rewrite run_task_finished by done.
  eexists. split; [reflexivity|]. vt_simpl. req_simpl. rewrite Hd, Hq, Hr.
  vt_simpl. req_simpl. done.
Qed.

Lemma lookup_written (d d' : Disk) (p data : string) :
  open_write d p = Some d' ->
  nodes (write d' p data) !! p = Some (File data).
Proof.
  unfold open_write, write. intros H. repeat case_match; simplify_eq; cbn [nodes].
  all: rewrite lookup_alter_eq, lookup_insert_eq; done.
Qed.

Lemma open_write_writable (d : Disk) (p : string) :
  writable d p -> exists d', open_write d p = Some d'.
Proof.
  intros [Hd Hn]. unfold open_write. rewrite bool_decide_eq_false_2 by done.
  destruct (nodes d !! p) as [[]|]; eauto. done.
Qed.

Lemma sample_get_miss o rc st x r d' :
  q_items (sample_queue st) = x :: r ->
  isfile (disk st) (path_join (opt_samples_dir o) (item_id x)) = false ->
  open_write (disk st) (path_join (opt_samples_dir o) (item_id x)) = Some d' ->
  exists st', get_sample o rc SGet st
               = (SFetch (item_id x) (path_join (opt_samples_dir o) (item_id x)), st')
    /\ disk st' = d'
    /\ sample_queue st' = {| q_items := r; q_unfinished := q_unfinished (sample_queue st) |}
    /\ requests (trace st') = requests (trace st) ++ [DownloadFile (item_id x)].
Proof.
  intros Hi Hf Ho. unfold get_sample, q_get. rewrite Hi. vt_simpl. rewrite Hf, Ho.
  eexists. split; [reflexivity|]. vt_simpl. split_and!; try done. by req_simpl.
Qed.

Lemma sample_fetch_api_error o rc st sample_id sample_path written code :
  download_file_async rc sample_id = (written, ApiFail code) ->
  get_sample o rc (SFetch sample_id sample_path) st
  = (SRaised (APIError code), set_disk (write (disk st) sample_path written) st).
Proof. intros H. unfold get_sample. by rewrite H. Qed.

Lemma sample_fetch_ok o rc st sample_id sample_path written u n :
  download_file_async rc sample_id = (written, Ok u) ->
  q_unfinished (sample_queue st) = S n ->
  exists st', get_sample o rc (SFetch sample_id sample_path) st = (SWhile, st')
    /\ disk st' = write (disk st) sample_path written
    /\ sample_queue st' = {| q_items := q_items (sample_queue st); q_unfinished := n |}
    /\ requests (trace st') = requests (trace st).
Proof.
  intros H Hu. unfold get_sample. rewrite H.
  unfold done_then, task_done, q_task_done. vt_simpl. rewrite Hu.
  eexists. split; [reflexivity|]. vt_simpl. split_and!; try done. by req_simpl.
Qed.

Lemma run_sample_api_error o c rc st x n written code fuel :
  q_items (sample_queue st) = [x] ->
  q_unfinished (sample_queue st) = n ->
  isfile (disk st) (path_join (opt_samples_dir o) (item_id x)) = false ->
  writable (disk st) (path_join (opt_samples_dir o) (item_id x)) ->
  download_file_async rc (item_id x) = (written, ApiFail code) ->
  3 <= fuel ->
  exists st', run_task o c rc fuel (SampleTask SWhile) st
               = (SampleTask (SRaised (APIError code)), st')
    /\ nodes (disk st') !! path_join (opt_samples_dir o) (item_id x) = Some (File written)
    /\ sample_queue st' = {| q_items := []; q_unfinished := n |}
    /\ requests (trace st') = requests (trace st) ++ [DownloadFile (item_id x)].
Proof.
  intros Hi Hu Hf Hw Hdl Hfuel.
  destruct (open_write_writable _ _ Hw) as [d' Hd'].
  destruct fuel as [|[|[|fuel]]]; try lia.
  rewrite run_task_S; task_cbn.
  rewrite sample_test. unfold q_empty at 1 2. rewrite Hi.
  rewrite run_task_S; task_cbn.
  unfold q_empty at 1. vt_simpl. rewrite Hi. cbn [negb].
  destruct (sample_get_miss o rc (emit (QEmptyTest SampleQ false) st) x [] d')
    as (st1 & -> & Hd & Hq & Hr); [done..|].
  rewrite run_task_S; task_cbn.
  rewrite (sample_fetch_api_error _ _ _ _ _ _ _ Hdl).
  rewrite run_task_finished by done.
  eexists. split; [reflexivity|]. vt_simpl. req_simpl. rewrite ?Hd, ?Hq, ?Hr.
  vt_simpl. req_simpl. split_and!; try done.
  - eapply lookup_written, Hd'.
  - by rewrite Hu.
Qed.

Lemma run_sample_download o c rc st x n written u fuel :
  q_items (sample_queue st) = [x] ->
  q_unfinished (sample_queue st) = S n ->
  isfile (disk st) (path_join (opt_samples_dir o) (item_id x)) = false ->
  writable (disk st) (path_join (opt_samples_dir o) (item_id x)) ->
  download_file_async rc (item_id x) = (written, Ok u) ->
  4 <= fuel ->
  exists st', run_task o c rc fuel (SampleTask SWhile) st = (SampleTask SReturned, st')
    /\ nodes (disk st') !! path_join (opt_samples_dir o) (item_id x) = Some (File written)
    /\ sample_queue st' = {| q_items := []; q_unfinished := n |}
    /\ requests (trace st') = requests (trace st) ++ [DownloadFile (item_id x)].
Proof.
  intros Hi Hu Hf Hw Hdl Hfuel.
  destruct (open_write_writable _ _ Hw) as [d' Hd'].
  destruct fuel as [|[|[|[|fuel]]]]; try lia.
  rewrite run_task_S; task_cbn.
  rewrite sample_test. unfold q_empty at 1 2. rewrite Hi.
  rewrite run_task_S; task_cbn.
  unfold q_empty at 1. vt_simpl. rewrite Hi. cbn [negb].
  destruct (sample_get_miss o rc (emit (QEmptyTest SampleQ false) st) x [] d')
    as (st1 & -> & Hd & Hq & Hr); [done..|].
  rewrite run_task_S; task_cbn.
  destruct (sample_fetch_ok o rc st1 (item_id x)
              (path_join (opt_samples_dir o) (item_id x)) written u n Hdl)
    as (st2 & -> & Hd2 & Hq2 & Hr2).
  { rewrite Hq. vt_simpl. done. }
  rewrite run_task_S; task_cbn.
  rewrite sample_test. rewrite Hq2, Hq. cbn [q_empty q_items].
  rewrite run_task_finished by done.
  eexists. split; [reflexivity|]. vt_simpl. req_simpl.
  rewrite ?Hd2, ?Hq2, ?Hr2, ?Hd, ?Hq, ?Hr. vt_simpl. req_simpl.
  split_and!; try done. eapply lookup_written, Hd'.
Qed.

(** ** A task alone: get_sample_info and get_behavior_report *)

Lemma info_test o c rc samples st :
  get_sample_info o c rc IWhile samples st =
    (if q_empty (info_queue st) then IReturned else IGet, samples,
     emit (QEmptyTest InfoQ (q_empty (info_queue st))) st).
Proof. reflexivity. Qed.

Lemma info_drain_test_nonempty o c rc samples st x r :
  q_items (info_queue st) = x :: r ->
  get_sample_info o c rc IDrainWhile samples st =
    (IDrainGet, samples, emit (QEmptyTest InfoQ false) st).
Proof. intros H. unfold get_sample_info, empty, q_empty. vt_simpl. by rewrite H. Qed.

Lemma log_api_error_trace code st :
  exists msg, log_api_error code st = log (Some "ERROR") msg st.
Proof. unfold log_api_error. repeat case_match; eauto. Qed.

Lemma info_fetch_not_found o c rc sample_id samples st :
  get_object_async rc (path_join "/files" sample_id) = ApiFail "NotFoundError" ->
  get_sample_info o c rc (IFetch sample_id) samples st =
    (IWhile, samples,
     log (Some "WARNING") ("Sample was not found: " +:+ sample_id +:+ nl) st).
Proof. intros H. unfold get_sample_info. rewrite H. reflexivity. Qed.

Lemma info_fetch_api_error o c rc sample_id samples st code :
  get_object_async rc (path_join "/files" sample_id) = ApiFail code ->
  code <> "NotFoundError" ->
  get_sample_info o c rc (IFetch sample_id) samples st =
    (IDrainWhile, samples, log_api_error code st).
Proof.
  intros H Hc. unfold get_sample_info. rewrite H.
  by rewrite bool_decide_eq_false_2.
Qed.

(** The drain loop of lines 537-541, run to the end of the coroutine. *)
Lemma run_info_drain o c rc samples items : forall st fuel,
  q_items (info_queue st) = items ->
  length items < q_unfinished (info_queue st) ->
  2 * length items + 2 <= fuel ->
  exists st', run_task o c rc fuel (SampleInfoTask IDrainWhile samples) st
               = (SampleInfoTask IReturned samples, st')
    /\ q_items (info_queue st') = []
    /\ q_unfinished (info_queue st') = q_unfinished (info_queue st) - length items - 1
    /\ requests (trace st') = requests (trace st)
    /\ disk st' = disk st.
Proof.
  induction items as [|x r IH]; intros st fuel Hi Hu Hfuel; cbn [length] in *.
  - destruct fuel as [|[|fuel]]; try lia.
    rewrite run_task_S; task_cbn. unfold get_sample_info at 1, empty, q_empty. vt_simpl. rewrite Hi.
    unfold done_then, task_done, q_task_done. vt_simpl.
    destruct (q_unfinished (info_queue st)) as [|n] eqn:Hn; [lia|].
    rewrite run_task_S; task_cbn. rewrite info_test. vt_simpl. rewrite Hi. cbn [q_empty q_items].
    rewrite run_task_finished by done.
    eexists. split; [reflexivity|]. vt_simpl. req_simpl.
    split_and!; try done; lia.
  - destruct fuel as [|[|fuel]]; try lia.
    rewrite run_task_S; task_cbn. rewrite (info_drain_test_nonempty _ _ _ _ _ x r Hi).
    rewrite run_task_S; task_cbn. unfold q_empty at 1. vt_simpl. rewrite Hi. cbn [negb].
    unfold get_sample_info at 1, q_get. vt_simpl. rewrite Hi.
    unfold done_then, task_done, q_task_done. vt_simpl.
    destruct (q_unfinished (info_queue st)) as [|n] eqn:Hn; [lia|].
    match goal with
    | |- context [run_task _ _ _ fuel _ ?s] =>
        destruct (IH s fuel) as (st' & -> & Hq & Hun & Hr & Hd);
          [done|vt_simpl; lia|lia|]
    end.
    eexists. split; [reflexivity|]. rewrite Hq, Hun, Hr, Hd. vt_simpl. req_simpl.
    split_and!; try done; lia.
Qed.

Lemma dones_snoc_done qn tr : dones qn (tr ++ [QTaskDone qn]) = S (dones qn tr).
Proof.
  unfold dones. rewrite filter_app, length_app, filter_cons, decide_True by done.
  cbn. lia.
Qed.

Lemma dones_snoc_other qn tr e : e <> QTaskDone qn -> dones qn (tr ++ [e]) = dones qn tr.
Proof.
  intros H. unfold dones. rewrite filter_app, length_app, filter_cons, decide_False by done.
  cbn. lia.
Qed.

#[local] Hint Rewrite dones_snoc_done : dones.
#[local] Hint Rewrite dones_snoc_other using discriminate : dones.

Lemma behavior_test o c rc st :
  get_behavior_report o c rc BWhile st =
    (if q_empty (behavior_queue st) then BReturned else BGet,
     emit (QEmptyTest BehaviorQ (q_empty (behavior_queue st))) st).
Proof. reflexivity. Qed.

Lemma behavior_fetch_api_error o c rc st sample sample_id report_file code n :
  get_json_async rc (behaviours_url c sample_id) = ApiFail code ->
  q_unfinished (behavior_queue st) = S n ->
  exists st', get_behavior_report o c rc (BFetch sample sample_id report_file) st
               = (BWhile, st')
    /\ disk st' = disk st
    /\ behavior_queue st'
       = {| q_items := q_items (behavior_queue st); q_unfinished := n |}
    /\ requests (trace st') = requests (trace st)
    /\ dones BehaviorQ (trace st') = S (dones BehaviorQ (trace st)).
Proof.
  intros H Hu. unfold get_behavior_report, execute_request. rewrite H.
  unfold done_then, task_done, q_task_done. vt_simpl. rewrite Hu.
  eexists. split; [reflexivity|]. vt_simpl. req_simpl. split_and!; try done.
  by autorewrite with dones.
Qed.

Lemma behavior_get_miss o c rc st x r :
  q_items (behavior_queue st) = x :: r ->
  isfile (disk st) (path_join (opt_reports_dir o) (item_id x)) = false ->
  exists st', get_behavior_report o c rc BGet st
               = (BFetch x (item_id x) (path_join (opt_reports_dir o) (item_id x)), st')
    /\ disk st' = disk st
    /\ behavior_queue st'
       = {| q_items := r; q_unfinished := q_unfinished (behavior_queue st) |}
    /\ requests (trace st')
       = requests (trace st) ++ [GetJson (behaviours_url c (item_id x))]
    /\ (forall qn, dones qn (trace st') = dones qn (trace st)).
Proof.
  intros Hi Hf. unfold get_behavior_report, q_get. rewrite Hi. vt_simpl. rewrite Hf.
  cbn [negb]. eexists. split; [reflexivity|]. vt_simpl. req_simpl.
  split_and!; try done. intros qn. by autorewrite with dones.
Qed.

Lemma behavior_get_hit o c rc st x r n :
  q_items (behavior_queue st) = x :: r ->
  q_unfinished (behavior_queue st) = S n ->
  isfile (disk st) (path_join (opt_reports_dir o) (item_id x)) = true ->
  exists st', get_behavior_report o c rc BGet st = (BWhile, st')
    /\ disk st' = disk st
    /\ behavior_queue st' = {| q_items := r; q_unfinished := n |}
    /\ requests (trace st') = requests (trace st).
Proof.
  intros Hi Hu Hf. unfold get_behavior_report, q_get. rewrite Hi. vt_simpl. rewrite Hf.
  cbn [negb]. unfold done_then, task_done, q_task_done.
  destruct (read_file _ _ ≫= json_load c); vt_simpl; rewrite Hu;
    (eexists; split; [reflexivity|]); vt_simpl; req_simpl; done.
Qed.


(** ** search

    [search] up to its [gather], with the [let]s of the definition
    resolved. *)

Lemma search_start_eq o c it st :
  search_start o c it st =
    let st1 := emit (CreateTask 0 CoHeartbeat) (emit (query_line o) st) in
    match open_write (disk st) (artifact_log o) with
    | None => (Ended (Raises IOError), heartbeat_only st1)
    | Some d =>
        match search_iterate o c (artifact_log o) it (set_disk d st1) with
        | (st2, ApiRaised _) => (Ended ReturnNone, heartbeat_only st2)
        | (st2, Escaped e) => (Ended (Raises e), heartbeat_only st2)
        | (st2, Exhausted) =>
            let '(ids, L) := spawn_workers o (opt_workers o) ([], heartbeat_only st2) in
            (Gathering ids, L)
        end
    end.
Proof.
  unfold search_start, create_task, artifact_log, heartbeat_only, query_line, log.
  cbn [vt tasks running length app fresh disk emit].
  destruct (open_write _ _); [|done].
  destruct (search_iterate _ _ _ _ _) as [st2 []]; done.
Qed.

Lemma write_denied d p data : denied (write d p data) = denied d.
Proof. done. Qed.

Lemma open_write_denied d p d' : open_write d p = Some d' -> denied d' = denied d.
Proof. unfold open_write. intros H. repeat case_match; by simplify_eq. Qed.

Lemma display_information_spec c sample filename st st' r :
  display_information c sample filename st = (st', r) ->
  (exists evs, trace st' = trace st ++ evs /\ Forall not_cancel evs)
  /\ denied (disk st') = denied (disk st)
  /\ (forall qn, queue qn st' = queue qn st)
  /\ (filename ∉ denied (disk st) -> r = None).
Proof.
  intros H. unfold display_information, open_write, log in H.
  repeat case_match; simplify_eq; vt_simpl.
  all: split; [eexists; split; [trace_norm; reflexivity|repeat constructor]|].
  all: split_and!; try done; try (intros []; done).
  all: intros Hd; try done.
  all: try (exfalso; repeat match goal with
                     | H : bool_decide _ = true |- _ => apply bool_decide_eq_true_1 in H
                     end; done).
  all: exfalso; unfold path_exists in *; repeat case_match; simplify_eq.
Qed.

Lemma put_spec qn x st :
  trace (put qn x st) = trace st ++ [QPut qn x] /\ disk (put qn x st) = disk st.
Proof. destruct qn; done. Qed.

Lemma visit_spec o c f obj st st' r :
  visit o c f obj st = (st', r) ->
  (exists evs, trace st' = trace st ++ evs /\ Forall not_cancel evs)
  /\ denied (disk st') = denied (disk st)
  /\ (path_join (opt_info_dir o) (a_id obj) ∉ denied (disk st) -> r = None).
Proof.
  unfold visit. intros H.
  destruct (bool_decide (a_type obj ∈ ["file"; "url"; "domain"])).
  2:{ simplify_eq. unfold log. vt_simpl. split_and!; try done.
      eexists. split; [reflexivity|]. repeat constructor. }
  match type of H with
  | display_information _ _ _ ?s = _ =>
      assert (Hs : (exists evs, trace s = trace st ++ evs /\ Forall not_cancel evs)
                   /\ denied (disk s) = denied (disk st))
  end.
  { repeat case_match; vt_simpl; (split; [|done]).
    all: eexists; (split; [trace_norm; first [reflexivity|symmetry; apply app_nil_r]|]).
    all: repeat constructor. }
  destruct Hs as [(evs1 & Ht1 & Hn1) Hd1].
  apply display_information_spec in H as ((evs2 & Ht2 & Hn2) & Hd2 & _ & Hr).
  split_and!.
  - exists (evs1 ++ evs2). rewrite Ht2, Ht1, app_assoc. split; [done|].
    by apply Forall_app.
  - congruence.
  - intros Hnd. apply Hr. by rewrite Hd1.
Qed.

Lemma log_api_error_spec code st :
  (exists e, trace (log_api_error code st) = trace st ++ [e] /\ not_cancel e)
  /\ disk (log_api_error code st) = disk st
  /\ (forall qn, queue qn (log_api_error code st) = queue qn st).
Proof.
  unfold log_api_error, log. repeat case_match; vt_simpl.
  all: split_and!; [eexists; split; [reflexivity|done] |done| intros []; done].
Qed.

Lemma search_iterate_spec o c f it : forall st st' e,
  search_iterate o c f it st = (st', e) ->
  (exists evs, trace st' = trace st ++ evs /\ Forall not_cancel evs).
Proof.
  induction it as [|[obj|code|] it IH]; intros st st' e H; cbn [search_iterate] in H.
  - simplify_eq. exists []. by rewrite app_nil_r.
  - destruct (visit o c f obj st) as [st1 [e1|]] eqn:Hv.
    + simplify_eq. by apply visit_spec in Hv as [? _].
    + apply visit_spec in Hv as [(evs1 & Ht1 & Hn1) _].
      apply IH in H as (evs2 & Ht2 & Hn2).
      exists (evs1 ++ evs2). rewrite Ht2, Ht1, app_assoc. split; [done|].
      by apply Forall_app.
  - simplify_eq. destruct (log_api_error_spec code st) as [(e & -> & He) _].
    exists [e]. split; [done|]. by constructor.
  - simplify_eq. exists []. by rewrite app_nil_r.
Qed.

(** The iteration reaches the reply that raises and ends there. *)
Lemma search_iterate_abort o c f code rest : forall pre st,
  (forall obj, obj ∈ pre -> path_join (opt_info_dir o) (a_id obj) ∉ denied (disk st)) ->
  exists st', search_iterate o c f ((Ok <$> pre) ++ ApiFail code :: rest) st
              = (st', ApiRaised code)
    /\ (pre = [] -> forall qn, queue qn st' = queue qn st).
Proof.
  induction pre as [|obj pre IH]; intros st Hd; cbn [fmap list_fmap app search_iterate].
  - eexists. split; [reflexivity|]. intros _. apply log_api_error_spec.
  - destruct (visit o c f obj st) as [st1 r] eqn:Hv.
    apply visit_spec in Hv as (_ & Hden & Hr).
    rewrite Hr by (apply Hd; left).
    destruct (IH st1) as (st' & -> & _).
    { intros obj' Hin. rewrite Hden. apply Hd. by right. }
    eexists. split; [reflexivity|]. done.
Qed.

(** C2.  When the iterator of the Remote Catalog raises an API error,
    of a Fatal class or of any other, [search] returns [None] at once:
    the loop holds the heartbeat and no worker task; when the error comes
    with the first result, the sample and behaviour queues are as they
    were.  The artifact log and the summaries of the results before the
    error are taken to be writable. *)
Theorem search_aborts_without_workers (o : Options) (c : Collab) (st : VT)
    (pre : list Artifact) (code : string) (rest : list (reply Artifact)) :
  writable (disk st) (artifact_log o) ->
  (forall obj, obj ∈ pre -> path_join (opt_info_dir o) (a_id obj) ∉ denied (disk st)) ->
  (exists L, search o c ((Ok <$> pre) ++ ApiFail code :: rest) st ReturnNone L)
  /\ forall r L, search o c ((Ok <$> pre) ++ ApiFail code :: rest) st r L ->
       r = ReturnNone
       /\ tasks L = [HeartbeatTask HWhile]
       /\ (pre = [] -> sample_queue (vt L) = sample_queue st
                       /\ behavior_queue (vt L) = behavior_queue st).
Proof.
  intros Hw Hd.
  destruct (open_write_writable _ _ Hw) as [d Hopen].
  pose proof (search_start_eq o c ((Ok <$> pre) ++ ApiFail code :: rest) st) as Hs.
  cbv zeta in Hs. rewrite Hopen in Hs.
  destruct (search_iterate_abort o c (artifact_log o) code rest pre
              (set_disk d (emit (CreateTask 0 CoHeartbeat) (emit (query_line o) st))))
    as (st2 & Hit & Hq).
  { intros obj Hin. vt_simpl. rewrite (open_write_denied _ _ _ Hopen). by apply Hd. }
  rewrite Hit in Hs.
  split.
  - eexists. apply search_ended. exact Hs.
  - intros r L Hrun. destruct Hrun as [r L He|ids L1 L2 i t e He|ids L1 L2 He];
      rewrite Hs in He; simplify_eq.
    split_and!; [done|done|]. intros ->. cbn [heartbeat_only vt].
    split; [apply (Hq eq_refl SampleQ)|apply (Hq eq_refl BehaviorQ)].
Qed.

Lemma spawn_pair_spec o ids L :
  exists ws evs,
    tasks (spawn_pair o (ids, L)).2 = tasks L ++ ws
    /\ (spawn_pair o (ids, L)).1 = ids ++ seq (length (tasks L)) (length ws)
    /\ trace (vt (spawn_pair o (ids, L)).2) = trace (vt L) ++ evs
    /\ Forall not_cancel evs
    /\ running (spawn_pair o (ids, L)).2 = running L.
Proof.
  unfold spawn_pair, create_task.
  destruct (opt_download_behavior o), (opt_download_samples o);
    cbn [fst snd tasks vt running emit trace fresh].
  - exists [BehaviorTask BWhile; SampleTask SWhile]. eexists.
    rewrite <- !app_assoc, length_app. cbn [app length seq].
    split_and!; [done| |reflexivity|repeat constructor|done].
    by rewrite Nat.add_1_r.
  - exists [BehaviorTask BWhile]. eexists. cbn [app length seq].
    split_and!; [done|done|reflexivity|repeat constructor|done].
  - exists [SampleTask SWhile]. eexists. cbn [app length seq].
    split_and!; [done|done|reflexivity|repeat constructor|done].
  - exists [], []. rewrite !app_nil_r. done.
Qed.

Lemma spawn_workers_spec o n : forall ids L,
  exists ws evs,
    tasks (spawn_workers o n (ids, L)).2 = tasks L ++ ws
    /\ (spawn_workers o n (ids, L)).1 = ids ++ seq (length (tasks L)) (length ws)
    /\ trace (vt (spawn_workers o n (ids, L)).2) = trace (vt L) ++ evs
    /\ Forall not_cancel evs
    /\ running (spawn_workers o n (ids, L)).2 = running L.
Proof.
  induction n as [|n IH]; intros ids L; cbn [spawn_workers].
  - exists [], []. rewrite !app_nil_r. done.
  - destruct (spawn_pair_spec o ids L) as (ws1 & evs1 & Ht1 & Hi1 & Htr1 & Hn1 & Hr1).
    destruct (spawn_pair o (ids, L)) as [ids1 L1]. cbn [fst snd] in *.
    destruct (IH ids1 L1) as (ws2 & evs2 & Ht2 & Hi2 & Htr2 & Hn2 & Hr2).
    exists (ws1 ++ ws2), (evs1 ++ evs2).
    rewrite Ht2, Hi2, Htr2, Hr2, Ht1, Hi1, Htr1, Hr1.
    rewrite <- !app_assoc, !length_app, seq_app.
    split_and!; try done. by apply Forall_app.
Qed.

Lemma search_start_spec o c it st ph L1 :
  search_start o c it st = (ph, L1) ->
  exists evs ws,
    trace (vt L1) = trace st ++ query_line o :: CreateTask 0 CoHeartbeat :: evs
    /\ Forall not_cancel evs
    /\ tasks L1 = HeartbeatTask HWhile :: ws
    /\ running L1 = None
    /\ match ph with
       | Gathering ids => ids = seq 1 (length ws)
       | Ended _ => ws = []
       end.
Proof.
  rewrite search_start_eq. cbv zeta. intros H.
  destruct (open_write _ _) as [d|].
  2:{ simplify_eq. exists [], []. cbn [heartbeat_only vt tasks running]. vt_simpl.
      trace_norm. done. }
  destruct (search_iterate _ _ _ _ _) as [st2 e] eqn:Hit.
  apply search_iterate_spec in Hit as (evs & Htr & Hn). vt_simpl.
  rewrite <- !app_assoc in Htr. cbn [app] in Htr.
  destruct e; simplify_eq.
  - destruct (spawn_workers_spec o (opt_workers o) [] (heartbeat_only st2))
      as (ws & evs2 & Ht2 & Hi2 & Htr2 & Hn2 & Hr2).
    destruct (spawn_workers _ _ _) as [ids L]. simplify_eq. cbn [fst snd] in *.
    exists (evs ++ evs2), ws. rewrite Htr2. cbn [heartbeat_only vt tasks running] in *.
    rewrite Htr, <- app_assoc. split_and!; try done. by apply Forall_app.
  - exists evs, []. done.
  - exists evs, []. done.
Qed.

Lemma cancel_all_spec : forall ids L,
  (forall i, i ∈ ids -> exists t, tasks L !! i = Some t /\ finished t = true) ->
  tasks (cancel_all ids L) = tasks L
  /\ trace (vt (cancel_all ids L)) = trace (vt L) ++ (Cancel <$> ids).
Proof.
  induction ids as [|i ids IH]; intros L H; cbn [cancel_all fold_left].
  - by rewrite app_nil_r.
  - destruct (H i) as (t & Hi & Hf); [left|].
    assert (Hc : tasks (cancel i L) = tasks L).
    { unfold cancel. cbn [tasks]. by rewrite Hi, Hf. }
    destruct (IH (cancel i L)) as [Ht Htr].
    { intros j Hj. rewrite Hc. apply H. by right. }
    fold (cancel_all ids (cancel i L)). rewrite Ht, Htr, Hc.
    unfold cancel. cbn [vt emit trace]. by rewrite <- app_assoc.
Qed.

Lemma own_not_cancel e : own_event e -> not_cancel e.
Proof. by destruct e. Qed.

Lemma not_cancel_elem l i : Forall not_cancel l -> Cancel i ∉ l.
Proof. intros H Hin. rewrite Forall_forall in H. by apply H in Hin. Qed.

Lemma returned_finished t : returned t = true -> finished t = true.
Proof. by destruct t as [[]|[]|[]|[]|]. Qed.

Lemma heartbeat_first (ts : list task) ws :
  coroutine_of <$> ts = coroutine_of <$> (HeartbeatTask HWhile :: ws) ->
  exists pc, ts !! 0 = Some (HeartbeatTask pc).
Proof.
  destruct ts as [|t ts]; [done|]. cbn. intros H. injection H as H _.
  destruct t; cbn in H; simplify_eq. eauto.
Qed.

(** C6 as amended.  In every run of [search] the heartbeat is the first
    task created, before the iteration; it is still a task of the loop
    when [search] ends, however it ends.  What is cancelled are worker
    tasks that have returned, never the heartbeat; when [search] returns
    after the queues have joined, every worker task has been cancelled. *)
Theorem heartbeat_outlives_search (o : Options) (c : Collab)
    (it : list (reply Artifact)) (st : VT) (r : result) (L : Loop) :
  search o c it st r L ->
  exists evs,
    trace (vt L) = trace st ++ query_line o :: CreateTask 0 CoHeartbeat :: evs
    /\ (exists pc, tasks L !! 0 = Some (HeartbeatTask pc))
    /\ (forall i, Cancel i ∈ evs ->
          i <> 0 /\ exists t, tasks L !! i = Some t /\ returned t = true)
    /\ (r = ReturnNone -> forall i, 0 < i < length (tasks L) -> Cancel i ∈ evs).
Proof.
  intros Hrun. destruct Hrun as [r L He|ids L1 L2 i t e He Hrtc|ids L1 L2 He Hrtc Hrn Hret].
  - apply search_start_spec in He as (evs & ws & Htr & Hn & Ht & _ & ->).
    exists evs. rewrite Ht. split_and!; [done|by eexists| |].
    + intros i Hin. by apply not_cancel_elem in Hin.
    + intros _ i. cbn. lia.
  - apply search_start_spec in He as (evs & ws & Htr & Hn & Ht & _ & ->).
    apply run_inv_rtc in Hrtc as [Hco (E & HE & Hown & _)].
    exists (evs ++ E). rewrite HE, Htr, <- app_assoc. split_and!; [done| | |done].
    + rewrite Ht in Hco. by eapply heartbeat_first.
    + intros j Hin. exfalso. eapply not_cancel_elem; [|exact Hin].
      apply Forall_app. split; [done|]. eapply Forall_impl; [exact Hown|].
      apply own_not_cancel.
  - apply search_start_spec in He as (evs & ws & Htr & Hn & Ht & _ & ->).
    apply run_inv_rtc in Hrtc as [Hco (E & HE & Hown & _)].
    destruct (cancel_all_spec (seq 1 (length ws)) L2) as [Hts Hctr].
    { intros j Hj. destruct (Hret j Hj) as (t & ? & ?). exists t.
      split; [done|]. by apply returned_finished. }
    exists (evs ++ E ++ (Cancel <$> seq 1 (length ws))).
    rewrite Hts, Hctr, HE, Htr, <- !app_assoc. split_and!; [done| | |].
    + rewrite Ht in Hco. by eapply heartbeat_first.
    + intros j Hin. rewrite !elem_of_app in Hin. destruct Hin as [Hin|[Hin|Hin]].
      * by apply not_cancel_elem in Hin.
      * exfalso. eapply not_cancel_elem; [|exact Hin].
        eapply Forall_impl; [exact Hown|]. apply own_not_cancel.
      * apply list_elem_of_fmap in Hin as (k & Hk & Hin). simplify_eq.
        split; [|by apply Hret]. apply elem_of_seq in Hin. lia.
    + intros _ j Hj. rewrite !elem_of_app. right. right.
      apply list_elem_of_fmap. exists j. split; [done|]. apply elem_of_seq.
      assert (Hlen : length (tasks L2) = S (length ws)).
      { rewrite <- (length_fmap coroutine_of), Hco, Ht, length_fmap. done. }
      lia.
Qed.

(** ** The claims about a worker alone *)

(** C5.  A sample worker that finds [{samples_dir}/{id}] on disk sends no
    request and leaves the disk as it is; so a second run, after a first
    one that downloaded the sample, does nothing to the disk and asks
    the Remote Catalog nothing, whatever that would answer. *)
Theorem cached_sample_is_not_fetched (o : Options) (c : Collab) (x : QueueItem) (n : nat) :
  (forall rc st fuel,
     q_items (sample_queue st) = [x] ->
     q_unfinished (sample_queue st) = S n ->
     isfile (disk st) (path_join (opt_samples_dir o) (item_id x)) = true ->
     3 <= fuel ->
     exists st', run_task o c rc fuel (fresh CoSample) st = (SampleTask SReturned, st')
       /\ disk st' = disk st
       /\ requests (trace st') = requests (trace st)
       /\ q_unfinished (sample_queue st') = n)
  /\ (forall rc rc' st content u fuel fuel',
     q_items (sample_queue st) = [x] ->
     q_unfinished (sample_queue st) = S n ->
     isfile (disk st) (path_join (opt_samples_dir o) (item_id x)) = false ->
     writable (disk st) (path_join (opt_samples_dir o) (item_id x)) ->
     download_file_async rc (item_id x) = (content, Ok u) ->
     4 <= fuel -> 3 <= fuel' ->
     exists st1 st2,
       run_task o c rc fuel (fresh CoSample) st = (SampleTask SReturned, st1)
       /\ nodes (disk st1) !! path_join (opt_samples_dir o) (item_id x) = Some (File content)
       /\ run_task o c rc' fuel' (fresh CoSample) (put SampleQ x st1)
          = (SampleTask SReturned, st2)
       /\ disk st2 = disk st1
       /\ requests (trace st2) = requests (trace st1)).
Proof.
  split.
  - intros rc st fuel Hi Hu Hf Hfuel.
    destruct (run_sample_hit o c rc st x n fuel Hi Hu Hf Hfuel) as (st' & H & Hd & Hr & Hq).
    exists st'. rewrite Hq. done.
  - intros rc rc' st content u fuel fuel' Hi Hu Hf Hw Hdl Hfuel Hfuel'.
    destruct (run_sample_download o c rc st x n content u fuel Hi Hu Hf Hw Hdl Hfuel)
      as (st1 & H1 & Hn1 & Hq1 & Hr1).
    destruct (run_sample_hit o c rc' (put SampleQ x st1) x n fuel') as (st2 & H2 & Hd2 & Hr2 & _).
    + cbn [put queue set_queue emit sample_queue q_put q_items]. by rewrite Hq1.
    + cbn [put queue set_queue emit sample_queue q_put q_unfinished]. by rewrite Hq1.
    + unfold isfile. cbn [put set_queue emit disk]. by rewrite Hn1.
    + done.
    + exists st1, st2. split_and!; try done.
      rewrite Hr2. cbn [put set_queue emit trace]. by req_simpl.
Qed.

Lemma cached_sample_is_not_fetched_witness :
  let x := IdStr md5_of_nothing in
  let st := put SampleQ x (new_vt no_disk) in
  exists st1 st2,
    run_task demo_options demo_collab (serving_remote "MZ") 4 (fresh CoSample) st
      = (SampleTask SReturned, st1)
    /\ nodes (disk st1) !! path_join (opt_samples_dir demo_options) (item_id x)
       = Some (File "MZ")
    /\ run_task demo_options demo_collab (failing_remote "NotFoundError" EmptyString) 3
         (fresh CoSample) (put SampleQ x st1)
       = (SampleTask SReturned, st2)
    /\ disk st2 = disk st1
    /\ requests (trace st2) = requests (trace st1).
Proof.
  intros x st.
  apply (proj2 (cached_sample_is_not_fetched demo_options demo_collab x 0)
           (serving_remote "MZ") (failing_remote "NotFoundError" EmptyString) st "MZ" tt 4 3).
  - reflexivity.
  - reflexivity.
  - vm_compute; reflexivity.
  - split; [apply not_elem_of_empty|]. vm_compute. discriminate.
  - reflexivity.
  - lia.
  - lia.
Defined.

(** C10.  When the download ends with an API error after the file was
    opened, the task ends with that error, what was written stays at
    [{samples_dir}/{id}], and every later run on that disk takes the
    file for the sample: it sends no request and changes nothing. *)
Theorem failed_download_leaves_file (o : Options) (c : Collab) (rc : Remote)
    (x : QueueItem) (st : VT) (written code : string) (fuel : nat) :
  q_items (sample_queue st) = [x] ->
  isfile (disk st) (path_join (opt_samples_dir o) (item_id x)) = false ->
  writable (disk st) (path_join (opt_samples_dir o) (item_id x)) ->
  download_file_async rc (item_id x) = (written, ApiFail code) ->
  3 <= fuel ->
  exists st1,
    run_task o c rc fuel (fresh CoSample) st = (SampleTask (SRaised (APIError code)), st1)
    /\ nodes (disk st1) !! path_join (opt_samples_dir o) (item_id x) = Some (File written)
    /\ disk st1 <> disk st
    /\ forall rc' st2 m fuel',
         disk st2 = disk st1 ->
         q_items (sample_queue st2) = [x] ->
         q_unfinished (sample_queue st2) = S m ->
         3 <= fuel' ->
         exists st3,
           run_task o c rc' fuel' (fresh CoSample) st2 = (SampleTask SReturned, st3)
           /\ disk st3 = disk st1
           /\ requests (trace st3) = requests (trace st2).
Proof.
  intros Hi Hf Hw Hdl Hfuel.
  destruct (run_sample_api_error o c rc st x _ written code fuel Hi eq_refl Hf Hw Hdl Hfuel)
    as (st1 & H1 & Hn1 & Hq1 & Hr1).
  exists st1. split_and!; [done|done| |].
  - intros Heq. unfold isfile in Hf. rewrite <- Heq, Hn1 in Hf. done.
  - intros rc' st2 m fuel' Hd2 Hi2 Hu2 Hfuel'.
    destruct (run_sample_hit o c rc' st2 x m fuel') as (st3 & H3 & Hd3 & Hr3 & _);
      [done|done| |done|].
    + unfold isfile. by rewrite Hd2, Hn1.
    + exists st3. rewrite Hd3, Hd2. done.
Qed.

Lemma failed_download_leaves_file_witness :
  let x := IdStr md5_of_nothing in
  let st := put SampleQ x (new_vt no_disk) in
  exists st1,
    run_task demo_options demo_collab (failing_remote "NotFoundError" "MZ") 3
      (fresh CoSample) st
    = (SampleTask (SRaised (APIError "NotFoundError")), st1)
    /\ nodes (disk st1) !! path_join (opt_samples_dir demo_options) (item_id x)
       = Some (File "MZ")
    /\ disk st1 <> disk st
    /\ forall rc' st2 m fuel',
         disk st2 = disk st1 ->
         q_items (sample_queue st2) = [x] ->
         q_unfinished (sample_queue st2) = S m ->
         3 <= fuel' ->
         exists st3,
           run_task demo_options demo_collab rc' fuel' (fresh CoSample) st2
           = (SampleTask SReturned, st3)
           /\ disk st3 = disk st1
           /\ requests (trace st3) = requests (trace st2).
Proof.
  intros x st.
  apply (failed_download_leaves_file demo_options demo_collab
           (failing_remote "NotFoundError" "MZ") x st "MZ" "NotFoundError" 3).
  - reflexivity.
  - vm_compute; reflexivity.
  - split; [apply not_elem_of_empty|]. vm_compute. discriminate.
  - reflexivity.
  - lia.
Defined.

(** C1, at the failing inputs.  An info worker whose lookup is answered
    with [NotFoundError] takes the identifier off the queue and returns
    without a [task_done] for it: the [continue] of line 528 jumps over
    line 541, and [join] on the info queue waits for ever.  A sample
    worker whose download is answered with an API error ends with that
    error, again without a [task_done]; so does an info worker that
    cannot write the summary. *)
Theorem not_found_is_never_marked_done :
  let rc := failing_remote "NotFoundError" EmptyString in
  let info := run_task demo_options demo_collab rc 10 (fresh CoSampleInfo)
                (put InfoQ (IdStr md5_of_nothing) (new_vt no_disk)) in
  let sample := run_task demo_options demo_collab rc 10 (fresh CoSample)
                  (put SampleQ (IdStr md5_of_nothing) (new_vt no_disk)) in
  let locked := run_task demo_options demo_collab (serving_remote "MZ") 10
                  (fresh CoSampleInfo)
                  (put InfoQ (IdStr md5_of_nothing) (new_vt locked_info_disk)) in
  info.1 = SampleInfoTask IReturned []
  /\ gets InfoQ (trace info.2) = [IdStr md5_of_nothing]
  /\ dones InfoQ (trace info.2) = 0
  /\ q_joined (info_queue info.2) = false
  /\ sample.1 = SampleTask (SRaised (APIError "NotFoundError"))
  /\ gets SampleQ (trace sample.2) = [IdStr md5_of_nothing]
  /\ dones SampleQ (trace sample.2) = 0
  /\ q_joined (sample_queue sample.2) = false
  /\ locked.1 = SampleInfoTask (IRaised IOError) []
  /\ gets InfoQ (trace locked.2) = [IdStr md5_of_nothing]
  /\ dones InfoQ (trace locked.2) = 0.
Proof. vm_compute. repeat split; reflexivity. Qed.

(** C3, the claim as stated fails: a behaviour worker whose first fetch
    is answered with [WrongCredentialsError] marks the item done and
    fetches the next one. *)
Lemma behavior_worker_survives_fatal_error :
  let rc := failing_remote "WrongCredentialsError" EmptyString in
  let st := put BehaviorQ (IdStr sha1_of_nothing)
              (put BehaviorQ (IdStr md5_of_nothing) (new_vt no_disk)) in
  let run := run_task demo_options demo_collab rc 10 (fresh CoBehaviorReport) st in
  run.1 = BehaviorTask BReturned
  /\ requests (trace run.2)
     = [GetJson (behaviours_url demo_collab md5_of_nothing);
        GetJson (behaviours_url demo_collab sha1_of_nothing)]
  /\ dones BehaviorQ (trace run.2) = 2.
Proof. vm_compute. repeat split; reflexivity. Qed.

Lemma fatal_not_not_found (code : string) :
  code ∈ auth_codes ++ quota_codes -> code <> "NotFoundError".
Proof.
  intros Hin ->. unfold auth_codes, quota_codes in Hin. cbn [app] in Hin.
  repeat (apply elem_of_cons in Hin as [Hin|Hin]; [discriminate|]).
  by apply elem_of_nil in Hin.
Qed.

Lemma search_iterate_cut o c f code rest : forall it st,
  search_iterate o c f (it ++ ApiFail code :: rest) st
  = search_iterate o c f (it ++ [ApiFail code]) st
  /\ (search_iterate o c f (it ++ ApiFail code :: rest) st).2 <> Exhausted.
Proof.
  induction it as [|[obj|code'|] it IH]; intros st; cbn [app search_iterate].
  - done.
  - destruct (visit o c f obj st) as [st1 [e|]]; [done|apply IH].
  - done.
  - done.
Qed.

(** C3 as amended.  A Fatal-class error ends the stage in the Search
    Driver, which looks at no further result and starts no worker, and in
    the info worker, which sends no further request, takes what is left
    in the info queue only to mark it done, and returns.  The behaviour
    worker does not stop: the item is marked done and the next item is
    fetched. *)
Theorem fatal_error_by_stage (o : Options) (c : Collab) (rc : Remote) (code : string) :
  code ∈ auth_codes ++ quota_codes ->
  (forall f it rest st,
     search_iterate o c f (it ++ ApiFail code :: rest) st
     = search_iterate o c f (it ++ [ApiFail code]) st
     /\ (search_iterate o c f (it ++ ApiFail code :: rest) st).2 <> Exhausted)
  /\ (forall sample_id samples st fuel,
     get_object_async rc (path_join "/files" sample_id) = ApiFail code ->
     length (q_items (info_queue st)) < q_unfinished (info_queue st) ->
     2 * length (q_items (info_queue st)) + 3 <= fuel ->
     exists st',
       run_task o c rc fuel (SampleInfoTask (IFetch sample_id) samples) st
       = (SampleInfoTask IReturned samples, st')
       /\ q_items (info_queue st') = []
       /\ q_unfinished (info_queue st')
          = q_unfinished (info_queue st) - length (q_items (info_queue st)) - 1
       /\ requests (trace st') = requests (trace st)
       /\ disk st' = disk st)
  /\ (forall sample sample_id report_file y r n st,
     get_json_async rc (behaviours_url c sample_id) = ApiFail code ->
     q_items (behavior_queue st) = y :: r ->
     q_unfinished (behavior_queue st) = S n ->
     isfile (disk st) (path_join (opt_reports_dir o) (item_id y)) = false ->
     exists st',
       run_task o c rc 3 (BehaviorTask (BFetch sample sample_id report_file)) st
       = (BehaviorTask (BFetch y (item_id y) (path_join (opt_reports_dir o) (item_id y))),
          st')
       /\ dones BehaviorQ (trace st') = S (dones BehaviorQ (trace st))
       /\ requests (trace st')
          = requests (trace st) ++ [GetJson (behaviours_url c (item_id y))]).
Proof.
  intros Hfatal. split_and!.
  - intros f it rest st. apply search_iterate_cut.
  - intros sample_id samples st fuel Hget Hu Hfuel.
    destruct fuel as [|fuel]; [lia|].
    rewrite run_task_S; task_cbn.
    rewrite (info_fetch_api_error o c rc sample_id samples st code Hget
               (fatal_not_not_found code Hfatal)).
    destruct (log_api_error_trace code st) as [msg ->].
    destruct (run_info_drain o c rc samples (q_items (info_queue st))
                (log (Some "ERROR") msg st) fuel) as (st' & -> & Hi' & Hu' & Hr' & Hd').
    + done.
    + vt_simpl. done.
    + lia.
    + exists st'. rewrite Hi', Hu', Hr', Hd'. vt_simpl. req_simpl. done.
  - intros sample sample_id report_file y r n st Hget Hi Hu Hf.
    rewrite run_task_S; task_cbn.
    destruct (behavior_fetch_api_error o c rc st sample sample_id report_file code n Hget Hu)
      as (st1 & -> & Hd1 & Hq1 & Hr1 & Hdone1).
    rewrite run_task_S; task_cbn.
    rewrite behavior_test. rewrite Hq1, Hi. cbn [q_empty q_items].
    rewrite run_task_S; task_cbn.
    unfold q_empty at 1. vt_simpl. rewrite Hq1. cbn [q_items]. rewrite Hi. cbn [negb].
    destruct (behavior_get_miss o c rc (emit (QEmptyTest BehaviorQ false) st1) y r)
      as (st2 & -> & Hd2 & Hq2 & Hr2 & Hdone2).
    + vt_simpl. rewrite Hq1. cbn [q_items]. done.
    + vt_simpl. by rewrite Hd1.
    + cbn [run_task]. exists st2. split; [done|].
      rewrite Hdone2, Hr2. vt_simpl. req_simpl. autorewrite with dones.
      by rewrite Hdone1, Hr1.
Qed.

Lemma fatal_error_by_stage_witness :
  "WrongCredentialsError" ∈ auth_codes ++ quota_codes
  /\ exists st',
       run_task demo_options demo_collab
         (failing_remote "WrongCredentialsError" EmptyString) 5
         (SampleInfoTask (IFetch md5_of_nothing) [])
         (put InfoQ (IdStr sha1_of_nothing)
            (set_queue InfoQ {| q_items := []; q_unfinished := 1 |} (new_vt no_disk)))
       = (SampleInfoTask IReturned [], st')
       /\ q_items (info_queue st') = []
       /\ q_unfinished (info_queue st') = 2 - 1 - 1
       /\ requests (trace st') = []
       /\ disk st' = no_disk.
Proof.
  assert (Hin : "WrongCredentialsError" ∈ auth_codes ++ quota_codes).
  { unfold auth_codes. cbn [app]. do 3 right. left. }
  split; [exact Hin|].
  apply (proj1 (proj2 (fatal_error_by_stage demo_options demo_collab
                         (failing_remote "WrongCredentialsError" EmptyString)
                         "WrongCredentialsError" Hin))
           md5_of_nothing []
           (put InfoQ (IdStr sha1_of_nothing)
              (set_queue InfoQ {| q_items := []; q_unfinished := 1 |} (new_vt no_disk)))
           5).
  - reflexivity.
  - cbn. lia.
  - cbn. lia.
Defined.

(** C7, the claim as stated fails for the info role: the summary of the
    identifier is on disk, and the worker still asks the Remote Catalog;
    the file is looked for only after the answer has come. *)
Lemma info_worker_fetches_before_check :
  let d := {| nodes := {[ path_join "out/info" md5_of_nothing := File "old" ]};
              denied := ∅ |} in
  let run := run_task demo_options demo_collab (serving_remote "MZ") 10
               (fresh CoSampleInfo) (put InfoQ (IdStr md5_of_nothing) (new_vt d)) in
  path_exists d (path_join (opt_info_dir demo_options) md5_of_nothing) = true
  /\ trace run.2
     = [QPut InfoQ (IdStr md5_of_nothing);
        QEmptyTest InfoQ false;
        QGet InfoQ (IdStr md5_of_nothing);
        Net (GetObject (path_join "/files" md5_of_nothing));
        Display {| a_type := "file"; a_id := md5_of_nothing; a_url := EmptyString |};
        PathExists (path_join "out/info" md5_of_nothing) true;
        Log (Some "DEBUG")
          ("Summary report for sample already exists on disk and is not downloaded again: "
           +:+ md5_of_nothing);
        QTaskDone InfoQ;
        QEmptyTest InfoQ true].
Proof. vm_compute. split; reflexivity. Qed.

Lemma info_get_fetches o c rc samples st sample_id r :
  q_items (info_queue st) = IdStr sample_id :: r ->
  exists st', get_sample_info o c rc IGet samples st = (IFetch sample_id, samples, st')
    /\ trace st' = trace st ++ [QGet InfoQ (IdStr sample_id);
                                Net (GetObject (path_join "/files" sample_id))].
Proof.
  intros Hi. unfold get_sample_info, q_get. rewrite Hi.
  eexists. split; [reflexivity|]. vt_simpl. by trace_norm.
Qed.

Lemma info_fetch_checks_after o c rc samples st sample_id result :
  get_object_async rc (path_join "/files" sample_id) = Ok result ->
  exists evs,
    trace (get_sample_info o c rc (IFetch sample_id) samples st).2 = trace st ++ evs
    /\ PathExists (path_join (opt_info_dir o) sample_id)
         (path_exists (disk st) (path_join (opt_info_dir o) sample_id)) ∈ evs
    /\ requests evs = [].
Proof.
  intros Hget. unfold get_sample_info. rewrite Hget.
  unfold display_information, done_then, task_done, q_task_done, log.
  cbv zeta. vt_simpl.
  repeat case_match; simplify_eq; vt_simpl; cbn [snd].
  all: eexists; split; [trace_norm; reflexivity|].
  all: split; [|reflexivity].
  all: repeat match goal with H : path_exists _ _ = _ |- _ => rewrite H end.
  all: repeat first [by left | right].
Qed.

(** C7 as amended.  In every run of the loop a download or a behaviour
    request comes right after a test of the target file that answered
    [False], and a sample or behaviour worker that finds the file sends
    no request.  The info worker sends its lookup as soon as it has the
    identifier; [{info_dir}/{id}] is looked for only after the answer,
    in [display_information]. *)
Theorem requests_follow_cache_check (o : Options) (c : Collab) :
  (forall L1 L2, rtc (loop_step o c) L1 L2 ->
     exists E, trace (vt L2) = trace (vt L1) ++ E
       /\ forall prev, each_after (request_checked o c) prev E)
  /\ (forall rc st x r n,
        q_items (sample_queue st) = x :: r ->
        q_unfinished (sample_queue st) = S n ->
        isfile (disk st) (path_join (opt_samples_dir o) (item_id x)) = true ->
        exists st', get_sample o rc SGet st = (SWhile, st')
          /\ requests (trace st') = requests (trace st))
  /\ (forall rc st x r n,
        q_items (behavior_queue st) = x :: r ->
        q_unfinished (behavior_queue st) = S n ->
        isfile (disk st) (path_join (opt_reports_dir o) (item_id x)) = true ->
        exists st', get_behavior_report o c rc BGet st = (BWhile, st')
          /\ requests (trace st') = requests (trace st))
  /\ (forall rc samples st sample_id r,
        q_items (info_queue st) = IdStr sample_id :: r ->
        exists st',
          get_sample_info o c rc IGet samples st = (IFetch sample_id, samples, st')
          /\ trace st' = trace st ++ [QGet InfoQ (IdStr sample_id);
                                      Net (GetObject (path_join "/files" sample_id))])
  /\ (forall rc samples st sample_id result,
        get_object_async rc (path_join "/files" sample_id) = Ok result ->
        exists evs,
          trace (get_sample_info o c rc (IFetch sample_id) samples st).2 = trace st ++ evs
          /\ PathExists (path_join (opt_info_dir o) sample_id)
               (path_exists (disk st) (path_join (opt_info_dir o) sample_id)) ∈ evs
          /\ requests evs = []).
Proof.
  split_and!.
  - intros L1 L2 Hrtc. apply run_inv_rtc in Hrtc as [_ (E & HE & _ & Hreq)]. eauto.
  - intros rc st x r n Hi Hu Hf.
    destruct (sample_get_hit o rc st x r n Hi Hu Hf) as (st' & ? & _ & _ & ?). eauto.
  - intros rc st x r n Hi Hu Hf.
    destruct (behavior_get_hit o c rc st x r n Hi Hu Hf) as (st' & ? & _ & _ & ?). eauto.
  - intros rc samples st sample_id r. apply info_get_fetches.
  - intros rc samples st sample_id result. apply info_fetch_checks_after.
Qed.

Lemma requests_follow_cache_check_witness :
  let st := put SampleQ (IdStr md5_of_nothing) (new_vt cached_sample_disk) in
  exists st', get_sample demo_options (serving_remote "MZ") SGet st = (SWhile, st')
    /\ requests (trace st') = requests (trace st).
Proof.
  intros st.
  apply (proj1 (proj2 (requests_follow_cache_check demo_options demo_collab))
           (serving_remote "MZ") st (IdStr md5_of_nothing) [] 0).
  - reflexivity.
  - reflexivity.
  - vm_compute; reflexivity.
Defined.

(** ** The claims about the loop and the Search Driver: examples *)

Lemma two_workers_fresh : no_get_begun two_workers.
Proof.
  intros i t Hi. destruct i as [|[|i]]; cbn in Hi; simplify_eq; done.
Qed.

Lemma get_never_waits_witness :
  let rc := serving_remote "MZ" in
  let L2 := resume demo_options demo_collab rc 0 (SampleTask SWhile) two_workers in
  no_get_begun two_workers
  /\ rtc (loop_step demo_options demo_collab) two_workers L2
  /\ (forall i t, tasks L2 !! i = Some t -> blocked t (vt L2) = false)
  /\ exists E, trace (vt L2) = trace (vt two_workers) ++ E
       /\ (forall prev, each_after taken_after_test prev E)
       /\ (forall qn, gets qn E ++ q_items (queue qn (vt L2))
                      = q_items (queue qn (vt two_workers))).
Proof.
  intros rc L2.
  assert (Hstep : rtc (loop_step demo_options demo_collab) two_workers L2).
  { apply rtc_once. apply (loop_step_task _ _ two_workers 0 (SampleTask SWhile) rc).
    - reflexivity.
    - by left.
    - reflexivity. }
  split; [exact two_workers_fresh|]. split; [exact Hstep|].
  exact (get_never_waits demo_options demo_collab two_workers L2 two_workers_fresh Hstep).
Defined.

(** C9, the claim as stated fails: the worker tests the queue in one
    step and takes from it in another; the test leaves the item where it
    is.  Were a switch of tasks possible between the two, both workers
    would pass the test and the second would wait in [get] for ever. *)
Lemma test_and_get_are_two_steps :
  let rc := serving_remote "MZ" in
  let st := vt two_workers in
  get_sample demo_options rc SWhile st = (SGet, emit (QEmptyTest SampleQ false) st)
  /\ q_items (sample_queue (emit (QEmptyTest SampleQ false) st)) = [IdStr md5_of_nothing]
  /\ exists L,
       rtc (preemptive_step demo_options demo_collab) two_workers L
       /\ tasks L !! 1 = Some (SampleTask SGet)
       /\ blocked (SampleTask SGet) (vt L) = true.
Proof.
  intros rc st. split; [reflexivity|]. split; [reflexivity|].
  eexists. split.
  - eapply rtc_l.
    { apply (preemptive_step_task _ _ two_workers 0 (SampleTask SWhile) rc); reflexivity. }
    eapply rtc_l.
    { eapply (preemptive_step_task _ _ _ 1 (SampleTask SWhile) rc); reflexivity. }
    eapply rtc_l.
    { eapply (preemptive_step_task _ _ _ 0 (SampleTask SGet) rc); reflexivity. }
    apply rtc_refl.
  - split; vm_compute; reflexivity.
Qed.

Lemma search_aborts_without_workers_witness :
  let it := (Ok <$> []) ++ [ApiFail "WrongCredentialsError"] in
  (exists L, search demo_options demo_collab it (new_vt no_disk) ReturnNone L)
  /\ forall r L, search demo_options demo_collab it (new_vt no_disk) r L ->
       r = ReturnNone
       /\ tasks L = [HeartbeatTask HWhile]
       /\ (@nil Artifact = [] -> sample_queue (vt L) = sample_queue (new_vt no_disk)
                      /\ behavior_queue (vt L) = behavior_queue (new_vt no_disk)).
Proof.
  intros it.
  apply (search_aborts_without_workers demo_options demo_collab (new_vt no_disk) []
           "WrongCredentialsError" []).
  - split; [apply not_elem_of_empty|]. vm_compute. discriminate.
  - intros obj Hin. by apply elem_of_nil in Hin.
Defined.

(** The run of [search] in which the search has no result and the two
    sample workers find their queue empty. *)
Lemma search_without_results :
  exists L,
    search demo_options demo_collab [] (new_vt no_disk) ReturnNone L
    /\ tasks L = [HeartbeatTask HWhile; SampleTask SReturned; SampleTask SReturned]
    /\ trace (vt L)
       = [query_line demo_options; CreateTask 0 CoHeartbeat;
          CreateTask 1 CoSample; CreateTask 2 CoSample;
          QEmptyTest SampleQ true; QEmptyTest SampleQ true;
          Cancel 1; Cancel 2].
Proof.
  eexists. split.
  - eapply (search_joined _ _ _ _ [1; 2]).
    + vm_compute. reflexivity.
    + eapply rtc_l.
      { eapply (loop_step_task _ _ _ 1 (SampleTask SWhile) (serving_remote "MZ"));
          [reflexivity|by left|reflexivity]. }
      eapply rtc_l.
      { eapply (loop_step_task _ _ _ 2 (SampleTask SWhile) (serving_remote "MZ"));
          [reflexivity|by left|reflexivity]. }
      apply rtc_refl.
    + reflexivity.
    + intros i Hi. apply elem_of_cons in Hi as [->|Hi];
        [|apply elem_of_cons in Hi as [->|Hi]; [|by apply elem_of_nil in Hi]];
        eexists; split; reflexivity.
    + reflexivity.
    + reflexivity.
  - split; vm_compute; reflexivity.
Qed.

(** C6, the claim as stated fails: the heartbeat is created before the
    first result is asked for, so also when the first result is a Fatal
    error; and in a run that ends well the workers are cancelled, the
    heartbeat is not. *)
Lemma heartbeat_is_started_first_and_never_cancelled :
  (exists L,
     search demo_options demo_collab [ApiFail "WrongCredentialsError"] (new_vt no_disk)
       ReturnNone L
     /\ tasks L = [HeartbeatTask HWhile]
     /\ trace (vt L)
        = [query_line demo_options; CreateTask 0 CoHeartbeat;
           Log (Some "ERROR")
             "The API key is not valid for accessing the VirusTotal Private API, or there was a problem with the user account."])
  /\ (exists L,
     search demo_options demo_collab [] (new_vt no_disk) ReturnNone L
     /\ tasks L !! 0 = Some (HeartbeatTask HWhile)
     /\ (Cancel 0 ∉ trace (vt L))
     /\ (Cancel 1 ∈ trace (vt L))).
Proof.
  split.
  - eexists. split; [apply search_ended; vm_compute; reflexivity|].
    split; vm_compute; reflexivity.
  - destruct search_without_results as (L & Hrun & Ht & Htr).
    exists L. rewrite Ht, Htr. split_and!; [done|done| |].
    + intros Hin. repeat (apply elem_of_cons in Hin as [Hin|Hin]; [discriminate|]).
      by apply elem_of_nil in Hin.
    + do 6 right. left.
Qed.

Lemma heartbeat_outlives_search_witness :
  exists L evs,
    search demo_options demo_collab [ApiFail "WrongCredentialsError"] (new_vt no_disk)
      ReturnNone L
    /\ trace (vt L)
       = trace (new_vt no_disk)
         ++ query_line demo_options :: CreateTask 0 CoHeartbeat :: evs
    /\ (exists pc, tasks L !! 0 = Some (HeartbeatTask pc))
    /\ (forall i, Cancel i ∈ evs ->
          i <> 0 /\ exists t, tasks L !! i = Some t /\ returned t = true)
    /\ (ReturnNone = ReturnNone ->
        forall i, 0 < i < length (tasks L) -> Cancel i ∈ evs).
Proof.
  assert (Hrun : exists L, search demo_options demo_collab
                   [ApiFail "WrongCredentialsError"] (new_vt no_disk) ReturnNone L).
  { eexists. apply search_ended. vm_compute. reflexivity. }
  destruct Hrun as [L Hrun]. exists L.
  destruct (heartbeat_outlives_search demo_options demo_collab
              [ApiFail "WrongCredentialsError"] (new_vt no_disk) ReturnNone L Hrun)
    as (evs & H).
  exists evs. split; [exact Hrun|exact H].
Defined.
